(** * tcex: the validation and comparison engine, and the output buffer

    A shallow embedding of [tcex/testing/validate_data.py] (classes
    [Validator] and [ThreatConnect]) together with a model of the playbook
    output buffer, and the properties established about them.

    Conventions of the embedding.
    - Python values that travel through the comparison engine are the
      JSON-like trees of [value]; floating point numbers are not part of
      the embedding, and percentages are exact rationals.
    - A Python call either returns or raises: [result].
    - Calls to the logger ([self.log], [self.log_data]) write to a sink that
      none of the functions studied here reads back; they are left out.
    - Library functions ([difflib.ndiff], [deepdiff.DeepDiff], [json.loads],
      [re.compile], [random.sample]) and the remote platform are parameters
      of the sections that use them; regular expressions are matched on
      their abstract syntax. *)

From Stdlib Require Import ZArith QArith Qround Ascii String List Lia.
From stdpp Require Import gmap strings list pretty.

Open Scope string_scope.
Open Scope list_scope.

(** ** Python results *)

Inductive exn : Type :=
  | TypeError | KeyError | IndexError | ValueError | NameError
  | AttributeError | AssertionError | RuntimeError | ZeroDivisionError
  | ReError.

Inductive result (A : Type) : Type :=
  | Ok (a : A)
  | Raise (e : exn).
Arguments Ok {A} a.
Arguments Raise {A} e.

#[global] Instance result_ret : MRet result := @Ok.
#[global] Instance result_bind : MBind result := fun A B k r =>
  match r with
  | Ok a => k a
  | Raise e => Raise e
  end.

(** [try: body except KeyError: pass], where [body] updates [old]. *)
Definition except_KeyError_pass {A} (old : A) (r : result A) : result A :=
  match r with
  | Raise KeyError => Ok old
  | _ => r
  end.

(** ** Python values *)

#[warnings="-register-all"]
Inductive value : Type :=
  | VNone
  | VBool (b : bool)
  | VInt (n : Z)
  | VStr (s : string)
  | VList (l : list value)
  | VDict (d : list (string * value)).

(** A dict is an association list in insertion order. *)
Definition dict : Type := list (string * value).

Fixpoint dict_get (k : string) (d : dict) : option value :=
  match d with
  | [] => None
  | (k', v) :: d' => if String.eqb k k' then Some v else dict_get k d'
  end.

Fixpoint dict_del (k : string) (d : dict) : dict :=
  match d with
  | [] => []
  | (k', v) :: d' => if String.eqb k k' then dict_del k d' else (k', v) :: dict_del k d'
  end.

Definition dict_keys (d : dict) : list string := map fst d.

Definition bool_to_Z (b : bool) : Z := if b then 1%Z else 0%Z.

(** [a == b].  [True == 1], lists compare element by element, dicts
    compare as finite maps whatever the insertion order. *)
Fixpoint py_eq (a b : value) {struct a} : bool :=
  match a, b with
  | VNone, VNone => true
  | VBool x, VBool y => Bool.eqb x y
  | VBool x, VInt y => Z.eqb (bool_to_Z x) y
  | VInt x, VBool y => Z.eqb x (bool_to_Z y)
  | VInt x, VInt y => Z.eqb x y
  | VStr s, VStr t => String.eqb s t
  | VList xs, VList ys =>
      (fix go (xs ys : list value) {struct xs} : bool :=
         match xs, ys with
         | [], [] => true
         | x :: xs', y :: ys' => py_eq x y && go xs' ys'
         | _, _ => false
         end) xs ys
  | VDict d, VDict e =>
      Nat.eqb (length d) (length e) &&
      (fix go (d : list (string * value)) {struct d} : bool :=
         match d with
         | [] => true
         | (k, v) :: d' =>
             match dict_get k e with
             | Some v' => py_eq v v'
             | None => false
             end && go d'
         end) d
  | _, _ => false
  end.

(** [operator.eq] and [operator.ne]. *)
Definition operator_eq_ (a b : value) : bool := py_eq a b.
Definition operator_ne_ (a b : value) : bool := negb (py_eq a b).

(** Hashable values: everything but lists and dicts. *)
Definition hashable (v : value) : bool :=
  match v with
  | VList _ | VDict _ => false
  | _ => true
  end.

(** Truth value of [v] in a condition. *)
Definition truthy (v : value) : bool :=
  match v with
  | VNone => false
  | VBool b => b
  | VInt n => negb (Z.eqb n 0)
  | VStr s => negb (String.eqb s "")
  | VList l => negb (Nat.eqb (length l) 0)
  | VDict d => negb (Nat.eqb (length d) 0)
  end.

(** [for x in v]: the items a loop over [v] visits. *)
Definition py_iter (v : value) : result (list value) :=
  match v with
  | VList l => Ok l
  | VDict d => Ok (map VStr (dict_keys d))
  | VStr s => Ok (map (fun c => VStr (String c EmptyString)) (list_ascii_of_string s))
  | _ => Raise TypeError
  end.

(** [v.get(k)] with the default [None]. *)
Definition py_get (v : value) (k : string) : result value :=
  match v with
  | VDict d => Ok (default VNone (dict_get k d))
  | _ => Raise AttributeError
  end.

(** Position [i] of a sequence of length [n], counted from the end when
    negative. *)
Definition norm_index (n : nat) (i : Z) : option nat :=
  if (0 <=? i)%Z then
    (if (i <? Z.of_nat n)%Z then Some (Z.to_nat i) else None)
  else
    (if (0 <=? i + Z.of_nat n)%Z then Some (Z.to_nat (i + Z.of_nat n)) else None).

(** [del v[e]], returning the updated container. *)
Definition py_delitem (v e : value) : result value :=
  match v with
  | VDict d =>
      match e with
      | VStr k =>
          match dict_get k d with
          | Some _ => Ok (VDict (dict_del k d))
          | None => Raise KeyError
          end
      | VList _ | VDict _ => Raise TypeError
      | _ => Raise KeyError
      end
  | VList l =>
      let at_index (i : Z) :=
        match norm_index (length l) i with
        | Some j => Ok (VList (take j l ++ drop (S j) l))
        | None => Raise IndexError
        end in
      match e with
      | VInt i => at_index i
      | VBool b => at_index (bool_to_Z b)
      | _ => Raise TypeError
      end
  | _ => Raise TypeError
  end.

(** [x in v]. *)
Definition py_contains (v x : value) : result bool :=
  match v with
  | VList l => Ok (existsb (py_eq x) l)
  | VDict d =>
      match x with
      | VStr k => Ok (bool_decide (is_Some (dict_get k d)))
      | VList _ | VDict _ => Raise TypeError
      | _ => Ok false
      end
  | VStr s =>
      match x with
      | VStr t => Ok (bool_decide (is_Some (String.index 0 t s)))
      | _ => Raise TypeError
      end
  | _ => Raise TypeError
  end.

(** ** Regular expressions

    The patterns of [re], on their abstract syntax: the regular fragment
    (no anchors, groups are plain parentheses). *)

Module Regex.

Inductive regex : Type :=
  | Void
  | Eps
  | Chr (c : ascii)
  | Dot
  | Cat (r1 r2 : regex)
  | Alt (r1 r2 : regex)
  | Star (r : regex).

(** [.] matches any character but a newline. *)
Definition dot_ok (c : ascii) : bool := negb (Ascii.eqb c "010").

(** [matches r s]: the whole of [s] is a word of [r]. *)
Inductive matches : regex → list ascii → Prop :=
  | MEps : matches Eps []
  | MChr c : matches (Chr c) [c]
  | MDot c : dot_ok c = true → matches Dot [c]
  | MCat r1 r2 s1 s2 : matches r1 s1 → matches r2 s2 → matches (Cat r1 r2) (s1 ++ s2)
  | MAltL r1 r2 s : matches r1 s → matches (Alt r1 r2) s
  | MAltR r1 r2 s : matches r2 s → matches (Alt r1 r2) s
  | MStar0 r : matches (Star r) []
  | MStarS r s1 s2 : matches r s1 → matches (Star r) s2 → matches (Star r) (s1 ++ s2).

Fixpoint nullable (r : regex) : bool :=
  match r with
  | Void | Chr _ | Dot => false
  | Eps | Star _ => true
  | Cat r1 r2 => nullable r1 && nullable r2
  | Alt r1 r2 => nullable r1 || nullable r2
  end.

(** Brzozowski derivative. *)
Fixpoint deriv (c : ascii) (r : regex) : regex :=
  match r with
  | Void | Eps => Void
  | Chr c' => if Ascii.eqb c c' then Eps else Void
  | Dot => if dot_ok c then Eps else Void
  | Cat r1 r2 =>
      if nullable r1 then Alt (Cat (deriv c r1) r2) (deriv c r2)
      else Cat (deriv c r1) r2
  | Alt r1 r2 => Alt (deriv c r1) (deriv c r2)
  | Star r1 => Cat (deriv c r1) (Star r1)
  end.

(** [re.match(r, s) is not None]: some word of [r] starts [s] at its first
    character. *)
Fixpoint match_at_start (r : regex) (s : list ascii) : bool :=
  nullable r ||
  match s with
  | [] => false
  | c :: s' => match_at_start (deriv c r) s'
  end.

(** The pattern made of the ordinary characters of [p], each standing for
    itself. *)
Fixpoint literal (p : list ascii) : regex :=
  match p with
  | [] => Eps
  | c :: p' => Cat (Chr c) (literal p')
  end.

End Regex.

(** ** [class Validator] *)

(** What iterating [difflib.ndiff(a, b)] produces: the first character of
    every line it yields, and the exception that ends the iteration when
    there is one. *)
Record diff_stream : Type := DiffStream {
  diff_tags : list ascii;
  diff_raised : option exn
}.

(** What an operator returns: the bare [False] of [operator_deep_diff] when
    [deepdiff] cannot be imported, or a pair of the outcome and its details
    (a text, or the [DeepDiff] object). *)
Inductive details_t (ddiff : Type) : Type :=
  | Text (s : string)
  | Diff (d : ddiff).
Arguments Text {ddiff} s.
Arguments Diff {ddiff} d.

Inductive op_result (ddiff : Type) : Type :=
  | BareFalse
  | Pair (passed : bool) (details : details_t ddiff).
Arguments BareFalse {ddiff}.
Arguments Pair {ddiff} passed details.

Definition op_passed {ddiff} (r : op_result ddiff) : bool :=
  match r with
  | BareFalse => false
  | Pair p _ => p
  end.

Module Validator.
Section Validator.

(** [difflib.ndiff]. *)
Variable ndiff : value → value → diff_stream.
(** [self.max_diff], 10 unless reconfigured. *)
Variable max_diff : Z.
(** [deepdiff.DeepDiff(a, b, ignore_order=True)] when the module can be
    imported, and the truth value of the object it returns. *)
Variable ddiff : Type.
Variable DeepDiff : option (value → value → result ddiff).
Variable ddiff_truthy : ddiff → bool.
(** [json.loads]. *)
Variable json_loads : string → result value.
(** [re.compile]: the syntax tree of a pattern. *)
Variable re_compile : string → result Regex.regex.

Abbreviation kwargs_t := (gmap string value).
Definition operator_t : Type :=
  value → value → kwargs_t → result (op_result ddiff).

Definition missing_msg (i : nat) : string :=
  String "010" "    * Missing data at index " +:+ pretty i.
Definition extra_msg (i : nat) : string :=
  String "010" "    * Extra data at index " +:+ pretty i.
Definition max_msg : string :=
  String "010" "    * Max number of differences reached.".

(** The [for i, diff in enumerate(...)] loop of [details]; the boolean tells
    whether the loop was left by [break]. *)
Fixpoint details_loop (tags : list ascii) (i : nat) (diff_count : Z)
    (details : string) : string * bool :=
  match tags with
  | [] => (details, false)
  | t :: rest =>
      if Ascii.eqb t " " then details_loop rest (S i) diff_count details
      else
        let details :=
          if Ascii.eqb t "-" then details +:+ missing_msg i
          else if Ascii.eqb t "+" then details +:+ extra_msg i
          else details in
        if (diff_count >? max_diff)%Z then (details +:+ max_msg, true)
        else details_loop rest (S i) (diff_count + 1)%Z details
  end.

Definition is_None (v : value) : bool :=
  match v with VNone => true | _ => false end.

Definition details (app_data test_data : value) (op : string) : result string :=
  if negb (is_None app_data) && negb (is_None test_data)
     && (String.eqb op "eq" || String.eqb op "ne")
  then
    let s := ndiff app_data test_data in
    let '(d, broke) := details_loop (diff_tags s) 0 0 "" in
    if broke then Ok d
    else match diff_raised s with
         | None | Some TypeError | Some KeyError => Ok d
         | Some e => Raise e
         end
  else Ok "".

Definition operator_deep_diff (app_data test_data : value)
    : result (op_result ddiff) :=
  match DeepDiff with
  | None => Ok BareFalse
  | Some dd =>
      match dd app_data test_data with
      | Raise KeyError =>
          Ok (Pair false (Text "Encountered KeyError when running deepdiff"))
      | Raise NameError =>
          Ok (Pair false (Text "Encountered NameError when running deepdiff"))
      | Raise e => Raise e
      | Ok d =>
          if ddiff_truthy d then Ok (Pair false (Diff d))
          else Ok (Pair true (Text ""))
      end
  end.

Definition operator_eq (app_data tests_data : value) : result (op_result ddiff) :=
  let results := operator_eq_ app_data tests_data in
  d ← details app_data tests_data "eq";
  Ok (Pair results (Text d)).

Definition operator_ge (app_data tests_data : value) : result (op_result ddiff) :=
  let results := operator_ne_ app_data tests_data in
  let details :=
    if negb results then "App data is not greater than or equal to test data"
    else "" in
  Ok (Pair results (Text details)).

Definition operator_gt (app_data tests_data : value) : result (op_result ddiff) :=
  let results := operator_ne_ app_data tests_data in
  let details :=
    if negb results then "App data is not greater than to test data"
    else "" in
  Ok (Pair results (Text details)).

Definition loads_if_string (v : value) : result value :=
  match v with
  | VStr s => json_loads s
  | _ => Ok v
  end.

(** [del kwargs[k]]. *)
Definition kwargs_del (k : string) (kwargs : kwargs_t) : result kwargs_t :=
  match kwargs !! k with
  | Some _ => Ok (delete k kwargs)
  | None => Raise KeyError
  end.

(** The [for e in kwargs.get('exclude', [])] loop of [operator_json_eq]. *)
Fixpoint json_eq_loop (es : list value) (app_data test_data : value)
    (kwargs : kwargs_t) : result (value * value * kwargs_t) :=
  match es with
  | [] => Ok (app_data, test_data, kwargs)
  | e :: es' =>
      app_data ← except_KeyError_pass app_data (py_delitem app_data e);
      test_data ← except_KeyError_pass test_data (py_delitem test_data e);
      kwargs ← kwargs_del "exclude" kwargs;
      json_eq_loop es' app_data test_data kwargs
  end.

Definition operator_json_eq (app_data test_data : value) (kwargs : kwargs_t)
    : result (op_result ddiff) :=
  app_data ← loads_if_string app_data;
  test_data ← loads_if_string test_data;
  es ← py_iter (default (VList []) (kwargs !! "exclude"));
  '(app_data, test_data, _) ← json_eq_loop es app_data test_data kwargs;
  operator_deep_diff app_data test_data.

(** Calling a method that takes no keyword argument with [**kwargs]. *)
Definition positional (f : value → value → result (op_result ddiff)) : operator_t :=
  fun app_data test_data kwargs =>
    if Nat.eqb (size kwargs) 0 then f app_data test_data else Raise TypeError.

(** [[kv for kv in data if kv.get('key') not in exclude_keys]]. *)
Fixpoint keep_not_excluded (kvs : list value) (exclude_keys : value)
    : result (list value) :=
  match kvs with
  | [] => Ok []
  | kv :: kvs' =>
      k ← py_get kv "key";
      excluded ← py_contains exclude_keys k;
      kept ← keep_not_excluded kvs' exclude_keys;
      Ok (if (excluded : bool) then kept else kv :: kept)
  end.

Definition operator_keyvalue_eq (app_data test_data : value) (kwargs : kwargs_t)
    : result (op_result ddiff) :=
  match kwargs !! "exclude_keys" with
  | None | Some VNone => positional operator_deep_diff app_data test_data kwargs
  | Some exclude_keys =>
      kvs ← py_iter app_data;
      app_data ← keep_not_excluded kvs exclude_keys;
      kvs ← py_iter test_data;
      test_data ← keep_not_excluded kvs exclude_keys;
      positional operator_deep_diff (VList app_data) (VList test_data)
        (delete "exclude_keys" kwargs)
  end.

Definition operator_le (app_data tests_data : value) : result (op_result ddiff) :=
  let results := operator_ne_ app_data tests_data in
  let details :=
    if negb results then "App data is not less than or equal to test data"
    else "" in
  Ok (Pair results (Text details)).

Definition operator_lt (app_data tests_data : value) : result (op_result ddiff) :=
  let results := operator_ne_ app_data tests_data in
  let details :=
    if negb results then "App data is not less than to test data"
    else "" in
  Ok (Pair results (Text details)).

Definition operator_ne (app_data tests_data : value) : result (op_result ddiff) :=
  let results := operator_ne_ app_data tests_data in
  d ← details app_data tests_data "eq";
  Ok (Pair results (Text d)).

Definition operator_regex_match (app_data test_data : value)
    : result (op_result ddiff) :=
  match test_data with
  | VStr pattern =>
      r ← re_compile pattern;
      match app_data with
      | VStr s =>
          if Regex.match_at_start r (list_ascii_of_string s)
          then Ok (Pair true (Text ""))
          else Ok (Pair false
                     (Text ("app_data id not match regex (" +:+ pattern +:+ ")")))
      | _ => Raise TypeError
      end
  | _ => Raise TypeError
  end.

(** The dispatch table of [get_operator]. *)
Definition operators : list (string * operator_t) :=
  [ ("dd", positional operator_deep_diff);
    ("eq", positional operator_eq);
    ("=", positional operator_eq);
    ("le", positional operator_le);
    ("<=", positional operator_le);
    ("lt", positional operator_lt);
    ("<", positional operator_lt);
    ("ge", positional operator_ge);
    (">=", positional operator_ge);
    ("gt", positional operator_gt);
    (">", positional operator_gt);
    ("jeq", operator_json_eq);
    ("json_eq", operator_json_eq);
    ("kveq", operator_keyvalue_eq);
    ("keyvalue_eq", operator_keyvalue_eq);
    ("ne", positional operator_ne);
    ("!=", positional operator_ne);
    ("rex", positional operator_regex_match) ].

Fixpoint table_get {A} (k : string) (t : list (string * A)) : option A :=
  match t with
  | [] => None
  | (k', a) :: t' => if String.eqb k k' then Some a else table_get k t'
  end.

Definition get_operator (op : string) : option operator_t :=
  table_get op operators.

End Validator.
End Validator.

(** ** Association lists in insertion order

    Python's [dict] keeps its keys in insertion order; [eqb] is the
    equality of keys. *)

Section AList.
Context {K V : Type} (eqb : K → K → bool).

Fixpoint alist_get (k : K) (d : list (K * V)) : option V :=
  match d with
  | [] => None
  | (k', v) :: d' => if eqb k k' then Some v else alist_get k d'
  end.

(** [d[k] = v]: in place when [k] is a key of [d], at the end otherwise. *)
Fixpoint alist_set (k : K) (v : V) (d : list (K * V)) : list (K * V) :=
  match d with
  | [] => [(k, v)]
  | (k', v') :: d' =>
      if eqb k k' then (k', v) :: d' else (k', v') :: alist_set k v d'
  end.

(** [d.pop(k)] for a key of [d], as far as [d] is concerned. *)
Fixpoint alist_del (k : K) (d : list (K * V)) : list (K * V) :=
  match d with
  | [] => []
  | (k', v') :: d' =>
      if eqb k k' then d' else (k', v') :: alist_del k d'
  end.

End AList.

(** ** [class ThreatConnect] *)

Module ThreatConnect.

(** *** [tc_entities] *)

(** [tc_entities] returns a dict with the keys ['valid'] and ['errors'], or
    the list of the results of [tc_entity]. *)
Inductive entities_ret : Type :=
  | LengthReport (valid : bool) (errors : list string)
  | ResultList (results : list bool).

Definition length_error : string :=
  "LengthError: Length of files provided does not match length of entities provided.".

Section Entities.

(** [self.tc_entity(entity, owner, file)]: a round trip to the platform. *)
Variable tc_entity : value → string → option string → result bool.

(** [if files:] *)
Definition files_given (files : option (list string)) : bool :=
  match files with
  | Some (_ :: _) => true
  | _ => false
  end.

Fixpoint tc_entities_loop (entities : list value) (owner : string)
    (files : option (list string)) (index : nat) (results : list bool)
    : result (list bool) :=
  match entities with
  | [] => Ok results
  | entity :: rest =>
      results ←
        (if files_given files then
           match default [] files !! index with
           | Some file =>
               r ← tc_entity entity owner (Some file); Ok (results ++ [r])
           | None => Raise IndexError
           end
         else Ok results);
      r ← tc_entity entity owner None;
      tc_entities_loop rest owner files (S index) (results ++ [r])
  end.

Definition tc_entities (entities : list value) (owner : string)
    (files : option (list string)) : result entities_ret :=
  if files_given files && negb (Nat.eqb (length entities) (length (default [] files)))
  then Ok (LengthReport true [length_error])
  else results ← tc_entities_loop entities owner files 0 []; Ok (ResultList results).

End Entities.

(** *** [flatten] *)

(** What [flatten] contributes for one [item]: the flattening of the item
    when it is a list, the item itself otherwise. *)
Fixpoint flatten_item (item : value) : list value :=
  match item with
  | VList l =>
      (fix flatten (lis : list value) : list value :=
         match lis with
         | [] => []
         | item :: rest => flatten_item item ++ flatten rest
         end) l
  | _ => [item]
  end.

(** The loop [for item in lis] of [flatten]. *)
Fixpoint flatten (lis : list value) : list value :=
  match lis with
  | [] => []
  | item :: rest => flatten_item item ++ flatten rest
  end.

(** *** [compare_lists] and [compare_dicts]

    Both receive references to mutable objects; the heap maps the identity
    of an object to its contents. *)

Definition loc : Type := nat.

Section CompareLists.
Context {A : Type} `{EqDecision A}.

(** [l.remove(x)] for an [x] that is in [l]. *)
Fixpoint remove_first (x : A) (l : list A) : list A :=
  match l with
  | [] => []
  | y :: l' => if decide (x = y) then l' else y :: remove_first x l'
  end.

(** What is left of [actual] once every item of [expected] found in it has
    been removed, one occurrence for each. *)
Fixpoint remove_found (expected actual : list A) : list A :=
  match expected with
  | [] => actual
  | item :: rest =>
      remove_found rest
        (if bool_decide (item ∈ actual) then remove_first item actual else actual)
  end.

(** The loop [for item in expected] over the list object [expected]: the
    iterator holds a position [i] and stops when [i] is past the current end
    of the list.  [None] when [fuel] runs out. *)
Fixpoint compare_lists_loop (fuel i : nat) (expected actual : loc)
    (h : gmap loc (list A)) (valid : bool) : option (bool * gmap loc (list A)) :=
  match fuel with
  | O => None
  | S fuel' =>
      match (h !!! expected) !! i with
      | None => Some (valid, h)
      | Some item =>
          if bool_decide (item ∈ h !!! actual)
          then compare_lists_loop fuel' (S i) expected actual
                 (<[actual := remove_first item (h !!! actual)]> h) valid
          else compare_lists_loop fuel' (S i) expected actual h false
      end
  end.

Definition compare_lists (expected actual : loc) (h : gmap loc (list A))
    : option (bool * gmap loc (list A)) :=
  '(valid, h) ← compare_lists_loop (S (length (h !!! expected))) 0 expected actual h true;
  let valid := match h !!! actual with [] => valid | _ :: _ => false end in
  Some (valid, h).

End CompareLists.

Section CompareDicts.
Context {K V : Type} `{EqDecision K}.

(** [str(x) != y] *)
Variable str_ne : V → V → bool.

Definition key_eqb (a b : K) : bool := bool_decide (a = b).

(** What is left of [actual] once every key of [expected] has been popped
    from it. *)
Fixpoint pop_found (expected actual : list (K * V)) : list (K * V) :=
  match expected with
  | [] => actual
  | (item, _) :: rest => pop_found rest (alist_del key_eqb item actual)
  end.

(** The loop [for item in expected] over the dict object [expected], which
    had [n0] keys when the loop started: the iterator raises as soon as the
    dict has another size, and yields the key at position [i] otherwise;
    [remaining] keys are still to come. *)
Fixpoint compare_dicts_loop (remaining n0 i : nat) (expected actual : loc)
    (h : gmap loc (list (K * V))) (valid : bool)
    : result (bool * gmap loc (list (K * V))) :=
  if negb (Nat.eqb (length (h !!! expected)) n0) then Raise RuntimeError
  else
    match remaining with
    | O => Ok (valid, h)
    | S remaining' =>
        match (h !!! expected) !! i with
        | None => Ok (valid, h)
        | Some (item, _) =>
            match alist_get key_eqb item (h !!! actual) with
            | Some a =>
                let valid :=
                  match alist_get key_eqb item (h !!! expected) with
                  | Some e => if str_ne e a then false else valid
                  | None => valid
                  end in
                compare_dicts_loop remaining' n0 (S i) expected actual
                  (<[actual := alist_del key_eqb item (h !!! actual)]> h) valid
            | None =>
                compare_dicts_loop remaining' n0 (S i) expected actual h false
            end
        end
    end.

Definition compare_dicts (expected actual : loc) (h : gmap loc (list (K * V)))
    : result (bool * gmap loc (list (K * V))) :=
  let n0 := length (h !!! expected) in
  '(valid, h) ← compare_dicts_loop n0 n0 0 expected actual h true;
  let valid := match h !!! actual with [] => valid | _ :: _ => false end in
  Ok (valid, h).

End CompareDicts.

(** *** [_partition_batch_data] *)

(** [batch_submit[type][subtype]]: a dict of dicts of lists, the inner one
    keyed by the value of [sub_data.get('type')]. *)
Definition partitions : Type := list (string * list (value * list value)).

(** The loop [for sub_data in data.get(key)]. *)
Fixpoint partition_sub_data (subs : list value)
    (partitioned_sub_data : list (value * list value))
    : result (list (value * list value)) :=
  match subs with
  | [] => Ok partitioned_sub_data
  | sub_data :: rest =>
      t ← py_get sub_data "type";
      if negb (hashable t) then Raise TypeError
      else
        partition_sub_data rest
          (match alist_get py_eq t partitioned_sub_data with
           | None => alist_set py_eq t [sub_data] partitioned_sub_data
           | Some l => alist_set py_eq t (l ++ [sub_data]) partitioned_sub_data
           end)
  end.

(** The loop [for key in data.keys()]. *)
Fixpoint partition_keys (keys : list string) (data : dict)
    (partitioned_data : partitions) : result partitions :=
  match keys with
  | [] => Ok partitioned_data
  | key :: rest =>
      subs ← py_iter (default VNone (dict_get key data));
      partitioned_sub_data ← partition_sub_data subs [];
      partition_keys rest data
        (alist_set String.eqb key partitioned_sub_data partitioned_data)
  end.

Definition _partition_batch_data (data : dict) : result partitions :=
  partition_keys (dict_keys data) data [].

(** *** [_convert_to_percent] *)

(** [batch_submit_totals]: a dict of dicts of counts. *)
Definition totals : Type := list (string * list (value * Z)).

Definition sum_counts (batch_submit_totals : totals) : Z :=
  fold_left (fun total kv =>
               fold_left (fun total sc => (total + snd sc)%Z) (snd kv) total)
            batch_submit_totals 0%Z.

(** The integer nearest to [x], the even one at a tie. *)
Definition round_half_even (x : Q) : Z :=
  let f := Qfloor x in
  match (x - inject_Z f ?= 1 # 2)%Q with
  | Lt => f
  | Gt => (f + 1)%Z
  | Eq => if Z.even f then f else (f + 1)%Z
  end.

(** [round(x, 2)] *)
Definition round2 (x : Q) : Q :=
  (inject_Z (round_half_even (x * 100)) / 100)%Q.

Definition _convert_to_percent (validation_count : Z) (batch_submit_totals : totals)
    : result Q :=
  let total := sum_counts batch_submit_totals in
  if (validation_count >? total)%Z then Ok 100%Q
  else if (total =? 0)%Z then Raise ZeroDivisionError
  else Ok (round2 ((inject_Z validation_count / inject_Z total) * 100)%Q).

(** *** [batch] *)

Section Batch.

Variable tc_entity : value → string → option string → result bool.
(** The state of the random number generator, and
    [random.sample(population, k)]. *)
Variable G : Type.
Variable sample : G → list value → Z → result (list value * G).

(** [math.ceil(len(sub_partition) * (validation_percent / 100))] *)
Definition sample_size (sub_partition : list value) (validation_percent : Q) : Z :=
  Qceiling (inject_Z (Z.of_nat (length sub_partition)) * (validation_percent / 100))%Q.

(** The loop [for sub_partition in validation_data.get(key).values()]. *)
Fixpoint sample_sub_partitions (subs : list (value * list value))
    (validation_percent : Q) (sample_validation_data : list value) (g : G)
    : result (list value * G) :=
  match subs with
  | [] => Ok (sample_validation_data, g)
  | (_, sub_partition) :: rest =>
      '(drawn, g) ← sample g sub_partition (sample_size sub_partition validation_percent);
      sample_sub_partitions rest validation_percent (sample_validation_data ++ drawn) g
  end.

(** The loop [for key in validation_data]. *)
Fixpoint sample_partitions (validation_data : partitions)
    (validation_percent : Q) (sample_validation_data : list value) (g : G)
    : result (list value * G) :=
  match validation_data with
  | [] => Ok (sample_validation_data, g)
  | (_, subs) :: rest =>
      '(sample_validation_data, g) ←
        sample_sub_partitions subs validation_percent sample_validation_data g;
      sample_partitions rest validation_percent sample_validation_data g
  end.

(** How the loop [for result in results] of [batch] reads what
    [tc_entities] returned: the keys of a dict are non-empty strings. *)
Definition all_passed (results : entities_ret) : bool :=
  match results with
  | LengthReport _ _ => true
  | ResultList rs => forallb id rs
  end.

(** The body of [batch] for one file [batch-*.json] whose content is
    [data]. *)
Definition batch_file (data : dict) (owner : string) (validation_percent : Q)
    (g : G) : result G :=
  validation_data ← _partition_batch_data data;
  '(sample_validation_data, g) ← sample_partitions validation_data validation_percent [] g;
  results ← tc_entities tc_entity sample_validation_data owner None;
  if all_passed results then Ok g else Raise AssertionError.

(** The second loop of [_get_batch_submit_totals], for one [key]. *)
Fixpoint count_sub_keys (key : string) (subs : list (value * list value))
    (counts : totals) : result totals :=
  match subs with
  | [] => Ok counts
  | (sub_key, sub_partition) :: rest =>
      let in_counts :=
        match sub_key with
        | VStr s => bool_decide (is_Some (alist_get String.eqb s counts))
        | _ => false
        end in
      let inner := default [] (alist_get String.eqb key counts) in
      inner ← (if in_counts then
                 match alist_get py_eq sub_key inner with
                 | Some _ => Ok inner
                 | None => Raise KeyError
                 end
               else Ok (alist_set py_eq sub_key 0%Z inner));
      let c := default 0%Z (alist_get py_eq sub_key inner) in
      count_sub_keys key rest
        (alist_set String.eqb key
           (alist_set py_eq sub_key (c + Z.of_nat (length sub_partition))%Z inner)
           counts)
  end.

Fixpoint count_keys (partitioned_data : partitions) (counts : totals)
    : result totals :=
  match partitioned_data with
  | [] => Ok counts
  | (key, subs) :: rest =>
      let counts :=
        match alist_get String.eqb key counts with
        | None => alist_set String.eqb key [] counts
        | Some _ => counts
        end in
      counts ← count_sub_keys key subs counts;
      count_keys rest counts
  end.

(** [_get_batch_submit_totals], over the contents of the files
    [batch-*.json] of the context. *)
Fixpoint _get_batch_submit_totals (files : list dict) (counts : totals)
    : result totals :=
  match files with
  | [] => Ok counts
  | data :: rest =>
      partitioned_data ← _partition_batch_data data;
      counts ← count_keys partitioned_data counts;
      _get_batch_submit_totals rest counts
  end.

(** [validation_criteria] *)
Record criteria : Type := Criteria {
  percent : option Q;
  count : option Z
}.

Fixpoint batch_files (files : list dict) (owner : string)
    (validation_percent : Q) (g : G) : result G :=
  match files with
  | [] => Ok g
  | data :: rest =>
      g ← batch_file data owner validation_percent g;
      batch_files rest owner validation_percent g
  end.

Definition batch (files : list dict) (owner : string)
    (validation_criteria : criteria) (g : G) : result G :=
  let validation_percent := default 100%Q (percent validation_criteria) in
  let validation_count := count validation_criteria in
  batch_submit_totals ← _get_batch_submit_totals files [];
  validation_percent ←
    (match validation_count with
     | Some c =>
         if (c =? 0)%Z then Ok validation_percent
         else _convert_to_percent c batch_submit_totals
     | None => Ok validation_percent
     end);
  batch_files files owner validation_percent g.

End Batch.

End ThreatConnect.

(** ** The playbook output buffer *)

Module Playbook.

(** Modelled from the spec: the playbook module ([add_output],
    [write_output], [read]) is exercised by [tests/playbooks] but is not
    among the sources; the definitions below follow the specification of the
    variable address, of the OutputAccumulator and of the KVStoreClient. *)
Inductive var_type : Type :=
  | String_ | StringArray | Binary | BinaryArray
  | KeyValue | KeyValueArray | TCEntity | TCEntityArray | Raw.

#[global] Instance var_type_eq_dec : EqDecision var_type.
Proof. solve_decision. Defined.











End Playbook.

(** ** Instances of the library parameters

    Small executable stand-ins for the libraries, on which the functions
    above can be run. *)

Module Instances.

(** A differ in the format of [ndiff] for two strings: the common prefix is
    reported unchanged, what is left of the first string deleted and what is
    left of the second inserted.  Other values are refused. *)
Fixpoint prefix_tags (a b : list ascii) : list ascii :=
  match a, b with
  | x :: a', y :: b' =>
      if Ascii.eqb x y then " "%char :: prefix_tags a' b'
      else repeat "-"%char (length a) ++ repeat "+"%char (length b)
  | _, _ => repeat "-"%char (length a) ++ repeat "+"%char (length b)
  end.

Definition prefix_ndiff (a b : value) : diff_stream :=
  match a, b with
  | VStr s, VStr t =>
      DiffStream (prefix_tags (list_ascii_of_string s) (list_ascii_of_string t)) None
  | _, _ => DiffStream [] (Some TypeError)
  end.

(** [deepdiff] is not installed. *)
Definition no_deepdiff : option (value → value → result unit) := None.

(** A deep diff that only tells whether the two values differ. *)
Definition differs (a b : value) : result bool := Ok (negb (py_eq a b)).

(** A parser of JSON that knows [null] only. *)
Definition loads_null (s : string) : result value :=
  if String.eqb s "null" then Ok VNone else Raise ValueError.

(** [re.compile] on the patterns without a special character, where every
    character stands for itself; this instance refuses the others. *)
Definition special (c : ascii) : bool :=
  existsb (Ascii.eqb c) (list_ascii_of_string ".^$*+?{}[]\|()").

Definition compile_plain (pattern : string) : result Regex.regex :=
  let p := list_ascii_of_string pattern in
  if existsb special p then Raise ReError else Ok (Regex.literal p).

(** A platform on which every entity validates. *)
Definition tc_entity_valid (entity : value) (owner : string)
    (file : option string) : result bool := Ok true.

(** [random.sample] as CPython draws from a small population: a pool holds
    the candidates left, the candidate at a random position is drawn and the
    last candidate takes its place.  The generator is the list of the raw
    draws to come. *)
Definition randbelow (g : list nat) (n : nat) : nat * list nat :=
  match g with
  | [] => (0, [])
  | r :: g' => (r mod n, g')
  end.

Fixpoint pool_draw {A} (k : nat) (pool : list A) (g : list nat) : list A * list nat :=
  match k with
  | O => ([], g)
  | S k' =>
      let n := length pool in
      let '(j, g) := randbelow g n in
      match pool !! j, pool !! (n - 1) with
      | Some x, Some y =>
          let '(rest, g) := pool_draw k' (take (n - 1) (<[j := y]> pool)) g in
          (x :: rest, g)
      | _, _ => ([], g)
      end
  end.

Definition pool_sample (g : list nat) (population : list value) (k : Z)
    : result (list value * list nat) :=
  if ((k <? 0) || (Z.of_nat (length population) <? k))%Z then Raise ValueError
  else Ok (pool_draw (Z.to_nat k) population g).

End Instances.

(** The tokens of the four ordering operators. *)
Definition ordering_tokens : list string :=
  ["lt"; "<"; "le"; "<="; "gt"; ">"; "ge"; ">="].

(** The exceptions that [details] silences. *)
Definition handled (e : option exn) : Prop :=
  e = None ∨ e = Some TypeError ∨ e = Some KeyError.

(** [subs] partitions [items] by the value of ['type']: it holds the items
    and nothing else, the items of a part have the type of the part, and no
    two parts have the same type. *)
Definition has_type (t : value) (e : value) : Prop :=
  ∃ t', py_get e "type" = Ok t' ∧ py_eq t' t = true.

Definition distinct_types (ts : list value) : Prop :=
  ∀ i j ti tj, i < j → ts !! i = Some ti → ts !! j = Some tj → py_eq tj ti = false.

Definition partition_of (items : list value) (subs : list (value * list value)) : Prop :=
  concat (map snd subs) ≡ₚ items
  ∧ Forall (fun sub => hashable (fst sub) = true ∧ Forall (has_type (fst sub)) (snd sub)) subs
  ∧ distinct_types (map fst subs).

(** [drawn] is a sample of the part [sub] at [pct] percent: drawn from the
    part alone without replacement, [ceil(len(part) * pct / 100)] items of
    it. *)
Definition sample_of (pct : Q) (sub : value * list value) (drawn : list value) : Prop :=
  drawn ⊆+ snd sub
  ∧ Z.of_nat (length drawn)
    = Qceiling (inject_Z (Z.of_nat (length (snd sub))) * (pct / 100))%Q.

(** ** Well-formed values: the keys of a dict are distinct *)

Fixpoint wf_value (v : value) : bool :=
  match v with
  | VList l => forallb wf_value l
  | VDict d =>
      bool_decide (NoDup (map fst d)) &&
      (fix go (d : list (string * value)) : bool :=
         match d with
         | [] => true
         | (_, x) :: d' => wf_value x && go d'
         end) d
  | _ => true
  end.


(** ** Vocabulary of the further properties *)

Definition is_dict (v : value) : bool :=
  match v with VDict _ => true | _ => false end.

Definition is_list (v : value) : bool :=
  match v with VList _ => true | _ => false end.

(** The ['key'] of a KeyValue entry. *)
Definition kv_key (kv : value) : value :=
  match kv with
  | VDict d => default VNone (dict_get "key" d)
  | _ => VNone
  end.

(** The entries whose key is in none of [exclude_keys]. *)
Definition not_excluded (exclude_keys : list value) (kvs : list value) : list value :=
  List.filter (fun kv => negb (existsb (py_eq (kv_key kv)) exclude_keys)) kvs.

(** An entry of [expected] is matched when [actual] has its key, with a
    value that the string form of the expected value equals. *)
Definition entry_matched {K V : Type} `{EqDecision K} (str_ne : V → V → bool)
    (act : list (K * V)) (ke : K * V) : Prop :=
  ∃ a, alist_get ThreatConnect.key_eqb (fst ke) act = Some a
     ∧ str_ne (snd ke) a = false.

(** An entity that [_partition_batch_data] can file: it has a [get]
    method, and what it answers for ['type'] can key a dict. *)
Definition entity_ok (e : value) : Prop :=
  ∃ t, py_get e "type" = Ok t ∧ hashable t = true.

(** The sizes of the parts of a partitioned file. *)
Definition part_size (sub : value * list value) : value * Z :=
  (fst sub, Z.of_nat (length (snd sub))).

Definition part_sizes (vd : ThreatConnect.partitions) : ThreatConnect.totals :=
  map (fun ks => (fst ks, map part_size (snd ks))) vd.


(** The entities of a batch file, key after key. *)
Definition entities_of (data : dict) : list value :=
  concat (map (fun kv => match py_iter (snd kv) with
                         | Ok items => items
                         | Raise _ => []
                         end) data).

(** Induction on values, through the lists and dicts they hold. *)

Section ValueInd.
Variable P : value → Prop.
Hypothesis HNone : P VNone.
Hypothesis HBool : ∀ b, P (VBool b).
Hypothesis HInt : ∀ n, P (VInt n).
Hypothesis HStr : ∀ s, P (VStr s).
Hypothesis HList : ∀ l, Forall P l → P (VList l).
Hypothesis HDict : ∀ d, Forall (fun kv => P (snd kv)) d → P (VDict d).

Fixpoint value_nested_ind (v : value) : P v :=
  match v with
  | VNone => HNone
  | VBool b => HBool b
  | VInt n => HInt n
  | VStr s => HStr s
  | VList l =>
      HList l ((fix go (l : list value) : Forall P l :=
                  match l with
                  | [] => List.Forall_nil P
                  | x :: l' => @List.Forall_cons _ P x l' (value_nested_ind x) (go l')
                  end) l)
  | VDict d =>
      HDict d ((fix go (d : list (string * value)) : Forall (fun kv => P (snd kv)) d :=
                  match d with
                  | [] => List.Forall_nil _
                  | kv :: d' =>
                      @List.Forall_cons _ (fun kv => P (snd kv)) kv d'
                        (value_nested_ind (snd kv)) (go d')
                  end) d)
  end.

End ValueInd.

(** * Properties *)

(** ** Strings *)

Lemma append_nonempty_l (a b : string) : a ≠ "" → a +:+ b ≠ "".
Proof. destruct a; [congruence | discriminate]. Qed.

Lemma append_nonempty_r (a b : string) : b ≠ "" → a +:+ b ≠ "".
Proof. destruct a; [auto | discriminate]. Qed.

(** ** Regular expressions: the matcher against the words of a pattern *)

Module RegexFacts.
Import Regex.

Lemma matches_cat_inv (r1 r2 : regex) (w : list ascii) :
  matches (Cat r1 r2) w →
  ∃ s1 s2, w = s1 ++ s2 ∧ matches r1 s1 ∧ matches r2 s2.
Proof. intros H. inversion H; subst. eauto. Qed.







Lemma matches_literal_inv (p w : list ascii) : matches (literal p) w → w = p.
Proof.
  revert w. induction p as [|c p IH]; simpl; intros w H.
  - by inversion H.
  - apply matches_cat_inv in H as (s1 & s2 & -> & H1 & H2).
    inversion H1; subst. simpl. f_equal. by apply IH.
Qed.

End RegexFacts.

(** ** Deleting a key *)

Lemma dict_del_absent (k : string) (d : dict) :
  dict_get k d = None → dict_del k d = d.
Proof.
  induction d as [|[k' v] d IH]; [done|]. simpl.
  destruct (String.eqb k k'); [done|]. intros H. by rewrite IH.
Qed.

(** [try: del d[k] except KeyError: pass] on a dict leaves the dict without
    the key [k], whether it was there or not. *)
Lemma del_key_of_dict (d : dict) (k : string) :
  except_KeyError_pass (VDict d) (py_delitem (VDict d) (VStr k))
  = Ok (VDict (dict_del k d)).
Proof.
  simpl. destruct (dict_get k d) eqn:Hg; [done|].
  simpl. by rewrite dict_del_absent.
Qed.

Arguments py_delitem : simpl never.
Arguments except_KeyError_pass : simpl never.

(** ** Equality of values *)

Lemma py_eq_list (xs ys : list value) :
  py_eq (VList xs) (VList ys)
  = Nat.eqb (length xs) (length ys)
    && forallb (fun xy => py_eq (fst xy) (snd xy)) (combine xs ys).
Proof.
  simpl. revert ys. induction xs as [|x xs IH]; intros [|y ys]; try done.
  rewrite IH. simpl. destruct (Nat.eqb (length xs) (length ys)); simpl.
  - done.
  - by rewrite andb_false_r.
Qed.

Lemma py_eq_dict (d e : dict) :
  py_eq (VDict d) (VDict e)
  = Nat.eqb (length d) (length e)
    && forallb (fun kv => match dict_get (fst kv) e with
                          | Some v' => py_eq (snd kv) v'
                          | None => false
                          end) d.
Proof.
  simpl. f_equal. induction d as [|[k v] d IH]; [done|].
  simpl. by rewrite IH.
Qed.

Lemma wf_value_dict (d : dict) :
  wf_value (VDict d)
  = bool_decide (NoDup (map fst d)) && forallb (fun kv => wf_value (snd kv)) d.
Proof.
  simpl. f_equal. induction d as [|[k v] d IH]; [done|].
  simpl. by rewrite IH.
Qed.

Lemma dict_get_of_member (d : dict) (k : string) (v : value) :
  NoDup (map fst d) → (k, v) ∈ d → dict_get k d = Some v.
Proof.
  induction d as [|[k' v'] d IH]; intros Hnd Hin.
  - by apply elem_of_nil in Hin.
  - simpl in *. apply NoDup_cons in Hnd as [Hk Hnd].
    apply elem_of_cons in Hin as [Heq | Hin].
    + inversion Heq; subst. by rewrite String.eqb_refl.
    + destruct (String.eqb k k') eqn:E.
      * apply String.eqb_eq in E. subst k'. exfalso. apply Hk.
        apply list_elem_of_fmap. by exists (k, v).
      * by apply IH.
Qed.

(** [a == a] for every well-formed value. *)
Lemma py_eq_refl (a : value) : wf_value a = true → py_eq a a = true.
Proof.
  induction a as [| b | n | s | l IH | d IH] using value_nested_ind; intros Hwf.
  - done.
  - by destruct b.
  - apply Z.eqb_refl.
  - apply String.eqb_refl.
  - rewrite py_eq_list, Nat.eqb_refl. simpl.
    simpl in Hwf. induction IH as [|x l Hx _ IHl]; [done|].
    simpl in *. apply andb_true_iff in Hwf as [Hwx Hwl].
    by rewrite Hx, IHl.
  - rewrite py_eq_dict, Nat.eqb_refl. simpl.
    rewrite wf_value_dict in Hwf. apply andb_true_iff in Hwf as [Hnd Hwf].
    apply bool_decide_eq_true in Hnd.
    apply forallb_forall. intros [k v] Hin. simpl.
    apply list_elem_of_In in Hin.
    rewrite (dict_get_of_member d k v Hnd Hin).
    rewrite Forall_forall in IH. apply (IH (k, v) Hin).
    rewrite forallb_forall in Hwf. apply (Hwf (k, v)). by apply list_elem_of_In.
Qed.

(** ** The operators of [Validator] *)

Section ValidatorFacts.

Variable ndiff : value → value → diff_stream.
Variable max_diff : Z.
Variable ddiff : Type.
Variable DeepDiff : option (value → value → result ddiff).
Variable ddiff_truthy : ddiff → bool.
Variable json_loads : string → result value.
Variable re_compile : string → result Regex.regex.

Local Abbreviation get_operator :=
  (Validator.get_operator ndiff max_diff ddiff DeepDiff ddiff_truthy json_loads re_compile).
Local Abbreviation details_loop := (Validator.details_loop max_diff).
Local Abbreviation details := (Validator.details ndiff max_diff).
Local Abbreviation operator_eq := (Validator.operator_eq ndiff max_diff ddiff).
Local Abbreviation operator_ne := (Validator.operator_ne ndiff max_diff ddiff).
Local Abbreviation operator_deep_diff :=
  (Validator.operator_deep_diff ddiff DeepDiff ddiff_truthy).
Local Abbreviation operator_json_eq :=
  (Validator.operator_json_eq ddiff DeepDiff ddiff_truthy json_loads).
Local Abbreviation operator_regex_match :=
  (Validator.operator_regex_match ddiff re_compile).

(** C1, as the code has it: each of the tokens [lt], [<], [le], [<=], [gt],
    [>], [ge], [>=] dispatches to a function that returns, and that passes
    exactly when [app_data != test_data]; none of them looks at the order of
    its arguments. *)
Theorem ordering_operators_test_inequality (app_data test_data : value) :
  Forall (fun tok =>
            ∃ f r, get_operator tok = Some f
                 ∧ f app_data test_data ∅ = Ok r
                 ∧ op_passed r = negb (py_eq app_data test_data))
         ordering_tokens.
Proof.
  unfold ordering_tokens.
  repeat (apply Forall_cons; split;
          [eexists; eexists; split; [reflexivity|]; split; reflexivity |]).
  apply Forall_nil. done.
Qed.

(** [ge] fails on [1, 1] although [1 >= 1], and [lt] passes on [2, 1]
    although [2 < 1] does not hold. *)
Example ge_rejects_equal_ints :
  Validator.operator_ge ddiff (VInt 1) (VInt 1)
  = Ok (Pair false (Text "App data is not greater than or equal to test data")).
Proof. reflexivity. Qed.

Example lt_accepts_greater_int :
  Validator.operator_lt ddiff (VInt 2) (VInt 1) = Ok (Pair true (Text "")).
Proof. reflexivity. Qed.

Lemma details_guard (app_data test_data : value) (op : string) :
  app_data = VNone ∨ test_data = VNone ∨ (op ≠ "eq" ∧ op ≠ "ne") →
  details app_data test_data op = Ok "".
Proof.
  intros [-> | [-> | [Heq Hne]]]; unfold Validator.details.
  - reflexivity.
  - simpl. by rewrite andb_false_r.
  - apply String.eqb_neq in Heq, Hne. rewrite Heq, Hne.
    by rewrite !andb_false_r.
Qed.

(** C9: [details] returns the empty string whenever [app_data] is [None],
    or [test_data] is [None], or the operator is neither [eq] nor [ne]; and
    so [operator_eq] and [operator_ne] against [None] return no details. *)
Theorem details_empty_without_both_sides (app_data test_data : value) (op : string) :
  app_data = VNone ∨ test_data = VNone ∨ (op ≠ "eq" ∧ op ≠ "ne") →
  details app_data test_data op = Ok ""
  ∧ (app_data = VNone ∨ test_data = VNone →
     operator_eq app_data test_data
       = Ok (Pair (py_eq app_data test_data) (Text ""))
     ∧ operator_ne app_data test_data
       = Ok (Pair (negb (py_eq app_data test_data)) (Text ""))).
Proof using ndiff max_diff ddiff.
  intros H. split; [exact (details_guard _ _ _ H)|].
  intros Hnone.
  unfold Validator.operator_eq, Validator.operator_ne.
  rewrite details_guard; [split; reflexivity|].
  destruct Hnone as [Hn | Hn]; [left | right; left]; exact Hn.
Qed.

Lemma kwargs_del_present (k : string) (kwargs : gmap string value) (v : value) :
  kwargs !! k = Some v → Validator.kwargs_del k kwargs = Ok (delete k kwargs).
Proof. unfold Validator.kwargs_del. by intros ->. Qed.

Lemma kwargs_del_absent (k : string) (kwargs : gmap string value) :
  kwargs !! k = None → Validator.kwargs_del k kwargs = Raise KeyError.
Proof. unfold Validator.kwargs_del. by intros ->. Qed.

(** C4, as the code has it: with an exclusion list of two keys or more,
    [operator_json_eq] raises [KeyError] on the second key, when it deletes
    ['exclude'] from its keyword arguments once more. *)
Theorem operator_json_eq_second_exclusion_raises
    (app_data test_data : dict) (kwargs : gmap string value)
    (e1 e2 : string) (es : list value) :
  kwargs !! "exclude" = Some (VList (VStr e1 :: VStr e2 :: es)) →
  operator_json_eq (VDict app_data) (VDict test_data) kwargs = Raise KeyError.
Proof.
  intros Hex. unfold Validator.operator_json_eq. simpl.
  rewrite Hex. simpl.
  rewrite !del_key_of_dict. simpl.
  rewrite (kwargs_del_present _ _ _ Hex). simpl.
  rewrite !del_key_of_dict. simpl.
  rewrite kwargs_del_absent; [done|]. apply lookup_delete_eq.
Qed.

(** With a single key the exclusion works: the key is removed from both
    sides and the rest goes to the deep diff. *)
Lemma operator_json_eq_one_exclusion (app_data test_data : dict) (e : string) :
  operator_json_eq (VDict app_data) (VDict test_data) {[ "exclude" := VList [VStr e] ]}
  = operator_deep_diff (VDict (dict_del e app_data)) (VDict (dict_del e test_data)).
Proof.
  unfold Validator.operator_json_eq. simpl.
  rewrite lookup_singleton_eq. simpl.
  rewrite !del_key_of_dict. simpl.
  unfold Validator.kwargs_del. rewrite lookup_singleton_eq. reflexivity.
Qed.

(** *** The loop of [details] *)

Lemma details_loop_blank (tags : list ascii) (i : nat) (c : Z) (d : string) :
  Forall (eq " "%char) tags → details_loop tags i c d = (d, false).
Proof.
  intros H. revert i. induction H as [|t tags <- _ IH]; intros i; [done|].
  simpl. apply IH.
Qed.

Lemma details_loop_skip (n : nat) (tags : list ascii) (i : nat) (c : Z) (d : string) :
  details_loop (repeat " "%char n ++ tags) i c d = details_loop tags (n + i) c d.
Proof.
  revert i. induction n as [|n IH]; intros i; [done|].
  simpl. rewrite IH. f_equal. lia.
Qed.

Lemma details_loop_nonempty (tags : list ascii) (i : nat) (c : Z) (d : string) :
  d ≠ "" → fst (details_loop tags i c d) ≠ "".
Proof.
  revert i c d. induction tags as [|t tags IH]; intros i c d Hd; [done|].
  simpl. destruct (Ascii.eqb t " "); [by apply IH|].
  set (d' := if Ascii.eqb t "-" then _ else _).
  assert (Hd' : d' ≠ "").
  { subst d'. destruct (Ascii.eqb t "-"); [by apply append_nonempty_l|].
    destruct (Ascii.eqb t "+"); [by apply append_nonempty_l | done]. }
  destruct (c >? max_diff)%Z; simpl.
  - by apply append_nonempty_l.
  - by apply IH.
Qed.

Lemma details_loop_change (t : ascii) (tags : list ascii) (i : nat) (c : Z) (d : string) :
  t = "-"%char ∨ t = "+"%char →
  fst (details_loop (t :: tags) i c d) ≠ "".
Proof.
  intros Ht. simpl.
  assert (Ascii.eqb t " " = false) as -> by (destruct Ht as [-> | ->]; reflexivity).
  set (d' := if Ascii.eqb t "-" then _ else _).
  assert (Hd' : d' ≠ "").
  { subst d'. destruct Ht as [-> | ->]; simpl; by apply append_nonempty_r. }
  destruct (c >? max_diff)%Z; simpl.
  - by apply append_nonempty_l.
  - by apply details_loop_nonempty.
Qed.

(** The loop goes two differences past [max_diff] before it stops: with
    [max_diff = 10], twelve deletions are reported out of thirteen. *)
Example details_loop_reports_twelve :
  Validator.details_loop 10 (repeat "-"%char 13) 0 0 ""
  = (fold_left (fun d i => d +:+ Validator.missing_msg i) (seq 0 12) ""
       +:+ Validator.max_msg, true).
Proof. vm_compute. reflexivity. Qed.

(** *** [operator_eq] under the contract of [ndiff] *)

Section DifferContract.

(** Iterating [ndiff] raises nothing but [TypeError] and [KeyError]. *)
Hypothesis ndiff_raises : ∀ a b, handled (diff_raised (ndiff a b)).
(** A value compared with itself yields unchanged lines only. *)
Hypothesis ndiff_same : ∀ a, Forall (eq " "%char) (diff_tags (ndiff a a)).
(** Two different strings yield a deletion or an insertion, after unchanged
    lines only. *)
Hypothesis ndiff_strings : ∀ s t : string, s ≠ t →
  ∃ n c rest,
    diff_tags (ndiff (VStr s) (VStr t)) = repeat " "%char n ++ c :: rest
    ∧ (c = "-"%char ∨ c = "+"%char).

Lemma details_returns (a b : value) (op : string) :
  ∃ d, details a b op = Ok d.
Proof.
  unfold Validator.details.
  destruct (negb (Validator.is_None a) && negb (Validator.is_None b)
            && (String.eqb op "eq" || String.eqb op "ne")); [|eauto].
  simpl. destruct (details_loop _ _ _ _) as [d [|]]; [eauto|].
  destruct (ndiff_raises a b) as [-> | [-> | ->]]; eauto.
Qed.

Lemma details_same (a : value) (op : string) : details a a op = Ok "".
Proof.
  unfold Validator.details.
  destruct (negb (Validator.is_None a) && negb (Validator.is_None a)
            && (String.eqb op "eq" || String.eqb op "ne")); [|done].
  simpl. rewrite details_loop_blank by apply ndiff_same.
  destruct (ndiff_raises a a) as [-> | [-> | ->]]; done.
Qed.

Lemma details_strings (s t : string) :
  s ≠ t → ∃ d, details (VStr s) (VStr t) "eq" = Ok d ∧ d ≠ "".
Proof.
  intros Hne. destruct (ndiff_strings s t Hne) as (n & c & rest & Htags & Hc).
  unfold Validator.details. simpl. rewrite Htags, details_loop_skip.
  pose proof (details_loop_change c rest (n + 0) 0 "" Hc) as Hd.
  destruct (details_loop (c :: rest) (n + 0) 0 "") as [d [|]]; simpl in Hd.
  - eauto.
  - destruct (ndiff_raises (VStr s) (VStr t)) as [E | [E | E]];
      rewrite E; eauto.
Qed.

(** C3, amended: [operator_eq(a, a)] passes with empty details; for
    [a != b], [operator_eq(a, b)] fails, with non-empty details when [a] and
    [b] are two strings, and with empty details when one of them is
    [None]. *)
Theorem operator_eq_same_and_different :
  (∀ a, wf_value a = true → operator_eq a a = Ok (Pair true (Text "")))
  ∧ (∀ a b, py_eq a b = false →
       ∃ d, operator_eq a b = Ok (Pair false (Text d)))
  ∧ (∀ s t : string, s ≠ t →
       ∃ d, operator_eq (VStr s) (VStr t) = Ok (Pair false (Text d)) ∧ d ≠ "")
  ∧ (∀ a b, py_eq a b = false → a = VNone ∨ b = VNone →
       operator_eq a b = Ok (Pair false (Text ""))).
Proof.
  unfold Validator.operator_eq, operator_eq_. repeat split.
  - intros a Hwf. by rewrite py_eq_refl, details_same.
  - intros a b Hab. destruct (details_returns a b "eq") as [d ->].
    rewrite Hab. by exists d.
  - intros s t Hne. destruct (details_strings s t Hne) as (d & -> & Hd).
    exists d. split; [|done]. simpl.
    by apply String.eqb_neq in Hne as ->.
  - intros a b Hab Hnone. rewrite Hab.
    rewrite details_guard by tauto. done.
Qed.

End DifferContract.

(** *** [operator_regex_match] *)


End ValidatorFacts.

(** ** The operators on the instances of the libraries *)

Lemma list_ascii_of_string_inj (s t : string) :
  list_ascii_of_string s = list_ascii_of_string t → s = t.
Proof.
  intros H. apply (f_equal string_of_list_ascii) in H.
  by rewrite !string_of_list_ascii_of_string in H.
Qed.

Lemma prefix_ndiff_raises (a b : value) :
  handled (diff_raised (Instances.prefix_ndiff a b)).
Proof.
  unfold handled. destruct a, b; simpl; auto.
Qed.

Lemma prefix_tags_same (l : list ascii) :
  Forall (eq " "%char) (Instances.prefix_tags l l).
Proof.
  induction l as [|c l IH]; simpl.
  - by apply Forall_nil.
  - rewrite Ascii.eqb_refl. by apply Forall_cons.
Qed.

Lemma prefix_ndiff_same (a : value) :
  Forall (eq " "%char) (diff_tags (Instances.prefix_ndiff a a)).
Proof.
  destruct a; simpl; try by apply Forall_nil.
  apply prefix_tags_same.
Qed.

Lemma prefix_tags_differ (a b : list ascii) :
  a ≠ b →
  ∃ n c rest, Instances.prefix_tags a b = repeat " "%char n ++ c :: rest
            ∧ (c = "-"%char ∨ c = "+"%char).
Proof.
  revert b. induction a as [|x a IH]; intros [|y b] Hne.
  - done.
  - exists 0, "+"%char, (repeat "+"%char (length b)). simpl. auto.
  - exists 0, "-"%char, (repeat "-"%char (length a) ++ []). simpl. auto.
  - simpl. destruct (Ascii.eqb x y) eqn:E.
    + apply Ascii.eqb_eq in E as ->.
      destruct (IH b) as (n & c & rest & -> & Hc); [congruence|].
      by exists (S n), c, rest.
    + exists 0, "-"%char,
        (repeat "-"%char (length a) ++ repeat "+"%char (S (length b))).
      simpl. auto.
Qed.

Lemma prefix_ndiff_strings (s t : string) :
  s ≠ t →
  ∃ n c rest,
    diff_tags (Instances.prefix_ndiff (VStr s) (VStr t)) = repeat " "%char n ++ c :: rest
    ∧ (c = "-"%char ∨ c = "+"%char).
Proof.
  intros Hne. simpl. apply prefix_tags_differ.
  intros H. by apply Hne, list_ascii_of_string_inj.
Qed.

(** C1 on [1] and [1]: every ordering token fails there, [le] and [ge]
    included. *)
Example ordering_tokens_on_equal_ints :
  Forall (fun tok =>
            ∃ f, Validator.get_operator Instances.prefix_ndiff 10 unit
                   Instances.no_deepdiff (fun _ => false) Instances.loads_null
                   Instances.compile_plain tok = Some f
               ∧ ∃ d, f (VInt 1) (VInt 1) ∅ = Ok (Pair false d))
         ordering_tokens.
Proof.
  unfold ordering_tokens.
  repeat (apply Forall_cons; split;
          [eexists; split; [reflexivity | eexists; reflexivity] |]).
  by apply Forall_nil.
Qed.

(** C3 on the prefix differ: ["abc"] against itself, against ["abd"], and
    [None] against ["a"]. *)
Lemma operator_eq_same_and_different_witness :
  Validator.operator_eq Instances.prefix_ndiff 10 unit (VStr "abc") (VStr "abc")
    = Ok (Pair true (Text ""))
  ∧ (∃ d, Validator.operator_eq Instances.prefix_ndiff 10 unit (VStr "abc") (VStr "abd")
          = Ok (Pair false (Text d)) ∧ d ≠ "")
  ∧ Validator.operator_eq Instances.prefix_ndiff 10 unit VNone (VStr "a")
    = Ok (Pair false (Text "")).
Proof.
  destruct (operator_eq_same_and_different Instances.prefix_ndiff 10 unit
              prefix_ndiff_raises prefix_ndiff_same prefix_ndiff_strings)
    as (Hsame & _ & Hstr & Hnone).
  split; [apply Hsame; reflexivity|].
  split; [apply Hstr; discriminate|].
  apply Hnone; [reflexivity | by left].
Defined.

(** C3 as stated fails: [None] differs from ["a"], and [operator_eq] returns
    no details for the pair, whatever the differ and [max_diff]. *)
Lemma operator_eq_none_gives_no_details :
  ¬ ∃ ndiff max_diff,
      ∀ a b, py_eq a b = false →
        ∃ d, Validator.operator_eq ndiff max_diff unit a b = Ok (Pair false (Text d))
           ∧ d ≠ "".
Proof.
  intros (ndiff & max_diff & H).
  destruct (H VNone (VStr "a") eq_refl) as (d & Hd & Hne).
  unfold Validator.operator_eq, Validator.details in Hd. simpl in Hd.
  inversion Hd. congruence.
Qed.

(** C9 for [None] against ["a"] under [eq]. *)
Lemma details_empty_without_both_sides_witness :
  Validator.details Instances.prefix_ndiff 10 VNone (VStr "a") "eq" = Ok ""
  ∧ Validator.operator_eq Instances.prefix_ndiff 10 unit VNone (VStr "a")
    = Ok (Pair false (Text ""))
  ∧ Validator.operator_ne Instances.prefix_ndiff 10 unit VNone (VStr "a")
    = Ok (Pair true (Text "")).
Proof.
  destruct (details_empty_without_both_sides Instances.prefix_ndiff 10 unit
              VNone (VStr "a") "eq") as [Hd Hops]; [by left|].
  split; [exact Hd|]. apply Hops. by left.
Defined.

(** C4 with the exclusion list [["a", "b"]]. *)
Lemma operator_json_eq_second_exclusion_raises_witness :
  Validator.operator_json_eq unit Instances.no_deepdiff (fun _ => false)
    Instances.loads_null
    (VDict [("a", VInt 1); ("b", VInt 2); ("c", VInt 3)])
    (VDict [("a", VInt 9); ("b", VInt 8); ("c", VInt 3)])
    {[ "exclude" := VList [VStr "a"; VStr "b"] ]}
  = Raise KeyError.
Proof.
  apply (operator_json_eq_second_exclusion_raises unit Instances.no_deepdiff
           (fun _ => false) Instances.loads_null _ _ _ "a" "b" []).
  apply lookup_singleton_eq.
Defined.


(** ** [tc_entities] *)

(** C2, as the code has it: when [files] is given and its length differs
    from the number of entities, [tc_entities] raises nothing and returns a
    report whose ['valid'] field is [True], with the length error among its
    ['errors']; the loop of [batch] over such a report finds nothing
    failed. *)
Theorem tc_entities_length_mismatch_reports_valid
    (tc_entity : value → string → option string → result bool)
    (entities : list value) (owner : string) (files : list string) :
  files ≠ [] →
  length entities ≠ length files →
  ThreatConnect.tc_entities tc_entity entities owner (Some files)
    = Ok (ThreatConnect.LengthReport true [ThreatConnect.length_error])
  ∧ ThreatConnect.all_passed
      (ThreatConnect.LengthReport true [ThreatConnect.length_error]) = true.
Proof.
  intros Hfiles Hlen. split; [|reflexivity].
  unfold ThreatConnect.tc_entities.
  destruct files as [|f files]; [done|]. simpl in *.
  destruct entities as [|e entities]; [done|]. simpl in *.
  apply Nat.eqb_neq in Hlen.
  assert (Nat.eqb (length entities) (length files) = false) as ->.
  { apply Nat.eqb_neq. apply Nat.eqb_neq in Hlen. lia. }
  reflexivity.
Qed.

(** C2 with one entity and two files. *)
Lemma tc_entities_length_mismatch_reports_valid_witness :
  ThreatConnect.tc_entities Instances.tc_entity_valid
    [VDict [("type", VStr "Document"); ("name", VStr "report")]] "TCI"
    (Some ["a.pdf"; "b.pdf"])
    = Ok (ThreatConnect.LengthReport true [ThreatConnect.length_error])
  ∧ ThreatConnect.all_passed
      (ThreatConnect.LengthReport true [ThreatConnect.length_error]) = true.
Proof.
  apply tc_entities_length_mismatch_reports_valid; simpl; [discriminate | lia].
Defined.

(** ** The output buffer of the playbook *)



(** ** [_convert_to_percent] *)

(** Rounding never goes past an integer bound. *)
Lemma round_half_even_le (x : Q) (n : Z) :
  (x <= inject_Z n)%Q → (ThreatConnect.round_half_even x <= n)%Z.
Proof.
  intros Hx. unfold ThreatConnect.round_half_even.
  pose proof (Qfloor_le x) as Hfl.
  assert (Hf : (Qfloor x <= n)%Z).
  { rewrite Zle_Qle. by apply Qle_trans with x. }
  assert (Hup : (inject_Z (Qfloor x) < x)%Q → (Qfloor x + 1 <= n)%Z).
  { intros Hlt. cut (Qfloor x < n)%Z; [lia|].
    rewrite Zlt_Qlt. by apply Qlt_le_trans with x. }
  destruct (x - inject_Z (Qfloor x) ?= 1 # 2)%Q eqn:E.
  - destruct (Z.even (Qfloor x)); [done|].
    apply Hup. apply Qeq_alt in E.
    apply Qlt_minus_iff. rewrite E. reflexivity.
  - done.
  - apply Hup. apply Qgt_alt in E.
    apply Qlt_minus_iff. apply Qlt_trans with (1 # 2)%Q; [reflexivity | done].
Qed.

Lemma round2_le_100 (x : Q) : (x <= 100)%Q → (ThreatConnect.round2 x <= 100)%Q.
Proof.
  intros Hx. unfold ThreatConnect.round2.
  apply Qle_shift_div_r; [reflexivity|].
  change (100 * 100)%Q with (inject_Z 10000).
  rewrite <- Zle_Qle. apply round_half_even_le.
  change (inject_Z 10000) with (100 * 100)%Q.
  apply Qmult_le_compat_r; [done | discriminate].
Qed.

Lemma ratio_percent_le_100 (c t : Z) :
  (0 < t)%Z → (c <= t)%Z → (inject_Z c / inject_Z t * 100 <= 100)%Q.
Proof.
  intros Ht Hc.
  assert (H1 : (inject_Z c / inject_Z t <= 1)%Q).
  { apply Qle_shift_div_r.
    - change 0%Q with (inject_Z 0). by rewrite <- Zlt_Qlt.
    - rewrite Qmult_1_l. by rewrite <- Zle_Qle. }
  apply Qle_trans with (1 * 100)%Q; [|discriminate].
  apply Qmult_le_compat_r; [done | discriminate].
Qed.



(** ** [compare_lists] and [compare_dicts] *)

Section CompareListsFacts.
Context {A : Type} `{EqDecision A}.
Implicit Types (h : gmap ThreatConnect.loc (list A)) (expected actual : ThreatConnect.loc).

Lemma remove_first_length (x : A) (l : list A) :
  (length (ThreatConnect.remove_first x l) ≤ length l)%nat.
Proof.
  induction l as [|y l IH]; simpl; [done|].
  destruct (decide (x = y)); simpl; lia.
Qed.

(** The loop over [expected] ends before its fuel does, also when [expected]
    and [actual] are one and the same list. *)
Lemma compare_lists_loop_total (fuel i : nat) expected actual h (valid : bool) :
  length (h !!! expected) - i < fuel →
  is_Some (ThreatConnect.compare_lists_loop fuel i expected actual h valid).
Proof.
  revert i h valid. induction fuel as [|fuel IH]; intros i h valid Hfuel; [lia|].
  simpl. destruct ((h !!! expected) !! i) as [item|] eqn:Hi; [|done].
  apply lookup_lt_Some in Hi.
  destruct (bool_decide (item ∈ h !!! actual)); apply IH; [|lia].
  destruct (decide (expected = actual)) as [->|Hne].
  - rewrite lookup_total_insert_eq.
    pose proof (remove_first_length item (h !!! actual)). lia.
  - rewrite lookup_total_insert_ne by done. lia.
Qed.

Lemma compare_lists_total expected actual h :
  is_Some (ThreatConnect.compare_lists expected actual h).
Proof.
  unfold ThreatConnect.compare_lists.
  destruct (compare_lists_loop_total (S (length (h !!! expected))) 0
              expected actual h true) as [[valid h'] ->]; [lia|].
  done.
Qed.

Lemma compare_lists_loop_distinct (fuel i : nat) expected actual h (valid : bool) :
  expected ≠ actual →
  length (h !!! expected) - i < fuel →
  ∃ valid' h',
    ThreatConnect.compare_lists_loop fuel i expected actual h valid = Some (valid', h')
    ∧ (∀ l, l ≠ actual → h' !! l = h !! l)
    ∧ h' !!! actual
      = ThreatConnect.remove_found (drop i (h !!! expected)) (h !!! actual).
Proof.
  intros Hne. revert i h valid.
  induction fuel as [|fuel IH]; intros i h valid Hfuel; [lia|].
  simpl. destruct ((h !!! expected) !! i) as [item|] eqn:Hi.
  - rewrite (drop_S _ _ _ Hi). simpl.
    apply lookup_lt_Some in Hi.
    destruct (bool_decide (item ∈ h !!! actual)).
    + destruct (IH (S i) (<[actual := ThreatConnect.remove_first item (h !!! actual)]> h) valid)
        as (valid' & h' & Hrun & Hframe & Hact).
      { rewrite lookup_total_insert_ne by done. lia. }
      exists valid', h'. split; [done|]. split.
      * intros l Hl. rewrite Hframe by done. by rewrite lookup_insert_ne.
      * rewrite Hact. rewrite lookup_total_insert_eq.
        by rewrite lookup_total_insert_ne.
    + destruct (IH (S i) h false) as (valid' & h' & Hrun & Hframe & Hact); [lia|].
      by exists valid', h'.
  - apply lookup_ge_None in Hi. rewrite drop_ge by done.
    by exists valid, h.
Qed.

Lemma compare_lists_distinct expected actual h :
  expected ≠ actual →
  ∃ valid h',
    ThreatConnect.compare_lists expected actual h = Some (valid, h')
    ∧ h' !! expected = h !! expected
    ∧ (∀ l, l ≠ actual → h' !! l = h !! l)
    ∧ h' !!! actual = ThreatConnect.remove_found (h !!! expected) (h !!! actual).
Proof.
  intros Hne. unfold ThreatConnect.compare_lists.
  destruct (compare_lists_loop_distinct (S (length (h !!! expected))) 0
              expected actual h true Hne) as (valid & h' & -> & Hframe & Hact); [lia|].
  simpl. eexists _, h'. split; [reflexivity|].
  split; [by apply Hframe|]. split; [done|]. by rewrite Hact.
Qed.

End CompareListsFacts.

Section CompareDictsFacts.
Context {K V : Type} `{EqDecision K}.
Variable str_ne : V → V → bool.
Implicit Types (h : gmap ThreatConnect.loc (list (K * V))) (expected actual : ThreatConnect.loc).

Lemma alist_del_absent (k : K) (d : list (K * V)) :
  alist_get ThreatConnect.key_eqb k d = None →
  alist_del ThreatConnect.key_eqb k d = d.
Proof.
  induction d as [|[k' v] d IH]; simpl; [done|].
  destruct (ThreatConnect.key_eqb k k'); [done|]. intros Hd. by rewrite IH.
Qed.

Lemma compare_dicts_loop_distinct (remaining i : nat) expected actual h (valid : bool) :
  expected ≠ actual →
  ∃ valid' h',
    ThreatConnect.compare_dicts_loop str_ne remaining (length (h !!! expected)) i
      expected actual h valid = Ok (valid', h')
    ∧ (∀ l, l ≠ actual → h' !! l = h !! l)
    ∧ h' !!! actual
      = ThreatConnect.pop_found (take remaining (drop i (h !!! expected))) (h !!! actual).
Proof.
  intros Hne. revert i h valid.
  induction remaining as [|remaining IH]; intros i h valid; simpl;
    rewrite Nat.eqb_refl; simpl.
  - by exists valid, h.
  - destruct ((h !!! expected) !! i) as [[item e]|] eqn:Hi.
    + rewrite (drop_S _ _ _ Hi). simpl.
      destruct (alist_get ThreatConnect.key_eqb item (h !!! actual)) as [a|] eqn:Ha.
      * set (valid1 := match alist_get _ item (h !!! expected) with
                       | Some e0 => if str_ne e0 a then false else valid
                       | None => valid
                       end).
        set (h1 := <[actual := alist_del ThreatConnect.key_eqb item (h !!! actual)]> h).
        assert (Hexp : h1 !!! expected = h !!! expected)
          by (subst h1; by rewrite lookup_total_insert_ne).
        destruct (IH (S i) h1 valid1) as (valid' & h' & Hrun & Hframe & Hact).
        rewrite Hexp in Hrun, Hact.
        exists valid', h'. split; [done|]. split.
        -- intros l Hl. rewrite Hframe by done. subst h1. by rewrite lookup_insert_ne.
        -- rewrite Hact. subst h1. by rewrite lookup_total_insert_eq.
      * destruct (IH (S i) h false) as (valid' & h' & Hrun & Hframe & Hact).
        exists valid', h'. split; [done|]. split; [done|].
        by rewrite alist_del_absent.
    + apply lookup_ge_None in Hi. rewrite drop_ge by done.
      rewrite take_nil. by exists valid, h.
Qed.

Lemma compare_dicts_distinct expected actual h :
  expected ≠ actual →
  ∃ valid h',
    ThreatConnect.compare_dicts str_ne expected actual h = Ok (valid, h')
    ∧ h' !! expected = h !! expected
    ∧ (∀ l, l ≠ actual → h' !! l = h !! l)
    ∧ h' !!! actual = ThreatConnect.pop_found (h !!! expected) (h !!! actual).
Proof.
  intros Hne. unfold ThreatConnect.compare_dicts.
  destruct (compare_dicts_loop_distinct (length (h !!! expected)) 0
              expected actual h true Hne) as (valid & h' & -> & Hframe & Hact).
  simpl. eexists _, h'. split; [reflexivity|].
  split; [by apply Hframe|]. split; [done|].
  rewrite Hact. by rewrite drop_0, firstn_all.
Qed.

End CompareDictsFacts.

(** C7, amended: when [expected] and [actual] are two objects,
    [compare_lists] and [compare_dicts] return, leave [expected] and every
    other object as they were, and leave in [actual] what was not found in
    [expected]: each item of [expected] present in [actual] has been removed
    from it. *)
Theorem compare_helpers_consume_actual {A K V : Type} `{EqDecision A} `{EqDecision K}
    (str_ne : V → V → bool) (expected actual : ThreatConnect.loc) :
  expected ≠ actual →
  (∀ h : gmap ThreatConnect.loc (list A),
     ∃ valid h',
       ThreatConnect.compare_lists expected actual h = Some (valid, h')
       ∧ h' !! expected = h !! expected
       ∧ (∀ l, l ≠ actual → h' !! l = h !! l)
       ∧ h' !!! actual = ThreatConnect.remove_found (h !!! expected) (h !!! actual))
  ∧ (∀ h : gmap ThreatConnect.loc (list (K * V)),
       ∃ valid h',
         ThreatConnect.compare_dicts str_ne expected actual h = Ok (valid, h')
         ∧ h' !! expected = h !! expected
         ∧ (∀ l, l ≠ actual → h' !! l = h !! l)
         ∧ h' !!! actual = ThreatConnect.pop_found (h !!! expected) (h !!! actual)).
Proof.
  intros Hne. split; intros h.
  - by apply compare_lists_distinct.
  - by apply compare_dicts_distinct.
Qed.

(** C7 on two tag lists and on two attribute dicts held by the objects [0]
    and [1]. *)
Lemma compare_helpers_consume_actual_witness :
  let tags : gmap ThreatConnect.loc (list string) :=
    {[ 0 := ["a"; "b"]; 1 := ["b"; "c"] ]} in
  let attributes : gmap ThreatConnect.loc (list (string * string)) :=
    {[ 0 := [("Description", "x"); ("Source", "y")];
       1 := [("Source", "y"); ("Score", "1")] ]} in
  let str_ne (e a : string) := negb (String.eqb e a) in
  (∃ valid h',
     ThreatConnect.compare_lists 0 1 tags = Some (valid, h')
     ∧ h' !! 0 = Some ["a"; "b"] ∧ h' !!! 1 = ["c"])
  ∧ (∃ valid h',
       ThreatConnect.compare_dicts str_ne 0 1 attributes = Ok (valid, h')
       ∧ h' !! 0 = Some [("Description", "x"); ("Source", "y")]
       ∧ h' !!! 1 = [("Score", "1")]).
Proof.
  intros tags attributes str_ne.
  destruct (compare_helpers_consume_actual (A := string) (K := string) str_ne 0 1)
    as [HL HD];
    [discriminate|].
  split.
  - destruct (HL tags) as (valid & h' & Hrun & Hexp & _ & Hact).
    exists valid, h'. split; [exact Hrun|]. split; [exact Hexp | exact Hact].
  - destruct (HD attributes) as (valid & h' & Hrun & Hexp & _ & Hact).
    exists valid, h'. split; [exact Hrun|]. split; [exact Hexp | exact Hact].
Defined.

(** C7 as stated fails: after [compare_lists(["a"], ["a"])] the list
    [actual] is empty, and after [compare_dicts({"k": "v"}, {"k": "v"})] the
    dict [actual] is empty. *)
Lemma compare_helpers_mutate_actual :
  (¬ ∀ (h h' : gmap ThreatConnect.loc (list string)) (valid : bool),
       ThreatConnect.compare_lists 0 1 h = Some (valid, h') →
       h' !! 0 = h !! 0 ∧ h' !! 1 = h !! 1)
  ∧ (¬ ∀ (h h' : gmap ThreatConnect.loc (list (string * string))) (valid : bool),
         ThreatConnect.compare_dicts (fun e a => negb (String.eqb e a)) 0 1 h
           = Ok (valid, h') →
         h' !! 0 = h !! 0 ∧ h' !! 1 = h !! 1).
Proof.
  split; intros H.
  - destruct (H {[ 0 := ["a"]; 1 := ["a"] ]} {[ 0 := ["a"]; 1 := [] ]} true) as [_ Hact].
    + vm_compute. reflexivity.
    + vm_compute in Hact. discriminate.
  - destruct (H {[ 0 := [("k", "v")]; 1 := [("k", "v")] ]}
                {[ 0 := [("k", "v")]; 1 := [] ]} true) as [_ Hact].
    + vm_compute. reflexivity.
    + vm_compute in Hact. discriminate.
Qed.

(** ** [_partition_batch_data] *)

Section AListFacts.
Context {K V : Type} (eqb : K → K → bool).

Lemma alist_get_None (k : K) (d : list (K * V)) :
  alist_get eqb k d = None → Forall (fun kv => eqb k (fst kv) = false) d.
Proof.
  induction d as [|[k' v] d IH]; simpl; intros Hg; [by apply Forall_nil|].
  destruct (eqb k k') eqn:E; [done|]. apply Forall_cons. by split; [|apply IH].
Qed.

Lemma alist_set_fresh (k : K) (v : V) (d : list (K * V)) :
  alist_get eqb k d = None → alist_set eqb k v d = d ++ [(k, v)].
Proof.
  induction d as [|[k' v'] d IH]; simpl; intros Hg; [done|].
  destruct (eqb k k'); [done|]. by rewrite IH.
Qed.

Lemma alist_set_present (k : K) (v old : V) (d : list (K * V)) :
  alist_get eqb k d = Some old →
  ∃ d1 k' d2, d = d1 ++ (k', old) :: d2
            ∧ eqb k k' = true
            ∧ alist_set eqb k v d = d1 ++ (k', v) :: d2.
Proof.
  induction d as [|[k' v'] d IH]; simpl; intros Hg; [done|].
  destruct (eqb k k') eqn:E.
  - inversion Hg; subst. by exists [], k', d.
  - destruct (IH Hg) as (d1 & k2 & d2 & -> & Hk & ->).
    by exists ((k', v') :: d1), k2, d2.
Qed.

End AListFacts.


Lemma py_eq_hashable_refl (a : value) : hashable a = true → py_eq a a = true.
Proof.
  intros Ha. apply py_eq_refl. by destruct a.
Qed.

Lemma distinct_types_snoc (ts : list value) (t : value) :
  distinct_types ts → Forall (fun t' => py_eq t t' = false) ts →
  distinct_types (ts ++ [t]).
Proof.
  intros Hd Hfresh i j ti tj Hij Hi Hj.
  destruct (decide (j < length ts)) as [Hlt|Hge].
  - rewrite lookup_app_l in Hi, Hj by lia. by apply (Hd i j).
  - rewrite lookup_app_r in Hj by lia.
    destruct (j - length ts) as [|n] eqn:E; [|by destruct n].
    simpl in Hj. inversion Hj; subst tj.
    rewrite lookup_app_l in Hi by lia.
    rewrite Forall_forall in Hfresh. apply Hfresh.
    by apply list_elem_of_lookup_2 in Hi.
Qed.

(** One more item keeps the partition. *)
Lemma partition_of_step (seen : list value) (psd : list (value * list value))
    (e t : value) :
  partition_of seen psd →
  py_get e "type" = Ok t → hashable t = true →
  partition_of (seen ++ [e])
    (match alist_get py_eq t psd with
     | None => alist_set py_eq t [e] psd
     | Some l => alist_set py_eq t (l ++ [e]) psd
     end).
Proof.
  intros (Hperm & Hall & Hdist) Hget Hhash.
  destruct (alist_get py_eq t psd) as [l|] eqn:Hg.
  - destruct (alist_set_present py_eq t (l ++ [e]) l psd Hg)
      as (d1 & k' & d2 & -> & Hk & ->).
    split; [|split].
    + rewrite <- Hperm. rewrite !map_app, !concat_app. simpl.
      rewrite <- !app_assoc. do 2 f_equiv. apply Permutation_app_comm.
    + apply Forall_app in Hall as [H1 H2]. apply Forall_cons in H2 as [[Hk' Hl] H2].
      apply Forall_app. split; [done|]. apply Forall_cons. split; [|done].
      simpl in *. split; [done|]. apply Forall_app. split; [done|].
      apply Forall_cons. split; [|by apply Forall_nil]. by exists t.
    + by rewrite map_app in *.
  - rewrite (alist_set_fresh py_eq t [e] psd Hg).
    split; [|split].
    + rewrite map_app, concat_app. simpl. by rewrite Hperm.
    + apply Forall_app. split; [done|]. apply Forall_cons. split; [|by apply Forall_nil].
      simpl. split; [done|]. apply Forall_cons. split; [|by apply Forall_nil].
      exists t. split; [done|]. by apply py_eq_hashable_refl.
    + rewrite map_app. simpl. apply distinct_types_snoc; [done|].
      apply alist_get_None in Hg. apply Forall_fmap.
      eapply Forall_impl; [exact Hg|]. by intros [k v].
Qed.

Lemma partition_sub_data_spec (subs seen : list value)
    (psd psd' : list (value * list value)) :
  partition_of seen psd →
  ThreatConnect.partition_sub_data subs psd = Ok psd' →
  partition_of (seen ++ subs) psd'.
Proof.
  revert seen psd. induction subs as [|e subs IH]; intros seen psd Hp Hrun; simpl in Hrun.
  - inversion Hrun; subst. by rewrite app_nil_r.
  - destruct (py_get e "type") as [t|] eqn:Hget; simpl in Hrun; [|done].
    destruct (hashable t) eqn:Hhash; simpl in Hrun; [|done].
    replace (seen ++ e :: subs) with ((seen ++ [e]) ++ subs) by by rewrite <- app_assoc.
    eapply IH; [|exact Hrun]. by apply partition_of_step.
Qed.

Lemma partition_of_nil : partition_of [] [].
Proof.
  split; [done|]. split; [by apply Forall_nil|]. by intros i j ti tj _ Hi.
Qed.


(** What [_partition_batch_data] holds for the key [ks.1]: a partition of
    the entities that [data] has under that key. *)
Lemma alist_set_Forall {V : Type} (P : string * V → Prop) (k : string) (v : V)
    (d : list (string * V)) :
  Forall P d → P (k, v) → Forall P (alist_set String.eqb k v d).
Proof.
  intros Hd Hk. induction Hd as [|[k' v'] d Hx Hd IH]; simpl.
  - apply Forall_cons. split; [done | by apply Forall_nil].
  - destruct (String.eqb k k') eqn:E.
    + apply String.eqb_eq in E as <-. by apply Forall_cons.
    + by apply Forall_cons.
Qed.

Lemma alist_set_keys {V : Type} (k k0 : string) (v : V) (d : list (string * V)) :
  k0 = k ∨ k0 ∈ map fst d → k0 ∈ map fst (alist_set String.eqb k v d).
Proof.
  induction d as [|[k' v'] d IH]; simpl.
  - intros [-> | H]; [apply list_elem_of_here | by apply elem_of_nil in H].
  - destruct (String.eqb k k') eqn:E; simpl.
    + apply String.eqb_eq in E as <-.
      intros [-> | H]; [apply list_elem_of_here | exact H].
    + intros [-> | [-> | H]%elem_of_cons].
      * apply list_elem_of_further, IH. by left.
      * apply list_elem_of_here.
      * apply list_elem_of_further, IH. by right.
Qed.

Lemma partition_keys_spec (keys : list string) (data : dict)
    (pd pd' : ThreatConnect.partitions) :
  let P (ks : string * list (value * list value)) :=
    ∃ items, py_iter (default VNone (dict_get (fst ks) data)) = Ok items
           ∧ partition_of items (snd ks) in
  Forall P pd →
  ThreatConnect.partition_keys keys data pd = Ok pd' →
  Forall P pd' ∧ ∀ k, k ∈ keys ∨ k ∈ map fst pd → k ∈ map fst pd'.
Proof.
  intros P. revert pd. induction keys as [|key keys IH]; intros pd Hpd Hrun; simpl in Hrun.
  - inversion Hrun; subst. split; [done|]. intros k [Hk | Hk]; [|done].
    by apply elem_of_nil in Hk.
  - destruct (py_iter (default VNone (dict_get key data))) as [items|] eqn:Hit;
      simpl in Hrun; [|done].
    destruct (ThreatConnect.partition_sub_data items []) as [psd|] eqn:Hsub;
      simpl in Hrun; [|done].
    destruct (IH _ (alist_set_Forall P key psd pd Hpd
                      (ex_intro _ items (conj Hit
                         (partition_sub_data_spec items [] [] psd partition_of_nil Hsub))))
                 Hrun) as [HP Hkeys].
    split; [done|]. intros k Hk. apply Hkeys.
    destruct Hk as [[-> | Hk]%elem_of_cons | Hk].
    + right. apply alist_set_keys. by left.
    + by left.
    + right. apply alist_set_keys. by right.
Qed.

(** ** [batch]: the samples *)

Lemma sample_size_bounds (sub_partition : list value) (pct : Q) :
  (0 <= pct)%Q → (pct <= 100)%Q →
  (0 ≤ ThreatConnect.sample_size sub_partition pct
     ≤ Z.of_nat (length sub_partition))%Z.
Proof.
  intros H0 H100. unfold ThreatConnect.sample_size.
  set (n := Z.of_nat (length sub_partition)).
  assert (Hn : (0 <= inject_Z n)%Q).
  { change 0%Q with (inject_Z 0). rewrite <- Zle_Qle. lia. }
  assert (Hr0 : (0 <= pct / 100)%Q).
  { apply Qle_shift_div_l; [reflexivity|]. by rewrite Qmult_0_l. }
  assert (Hr1 : (pct / 100 <= 1)%Q).
  { apply Qle_shift_div_r; [reflexivity|]. by rewrite Qmult_1_l. }
  split.
  - change 0%Z with (Qceiling 0). apply Qceiling_resp_le.
    by apply Qmult_le_0_compat.
  - apply Z.le_trans with (Qceiling (inject_Z n)); [|by rewrite Qceiling_Z].
    apply Qceiling_resp_le.
    rewrite Qmult_comm. apply Qle_trans with (1 * inject_Z n)%Q.
    + by apply Qmult_le_compat_r.
    + rewrite Qmult_1_l. apply Qle_refl.
Qed.

Section BatchFacts.

Variable G : Type.
Variable sample : G → list value → Z → result (list value * G).

(** [random.sample(population, k)] returns [k] items drawn from the
    population without replacement, for every [k] from 0 to the size of the
    population. *)
Hypothesis sample_spec : ∀ g population k,
  (0 ≤ k ≤ Z.of_nat (length population))%Z →
  ∃ drawn g', sample g population k = Ok (drawn, g')
            ∧ Z.of_nat (length drawn) = k
            ∧ drawn ⊆+ population.

Variable pct : Q.
Hypothesis pct_lower : (0 <= pct)%Q.
Hypothesis pct_upper : (pct <= 100)%Q.

Local Abbreviation sample_of := (sample_of pct).

Lemma sample_sub_partitions_spec (subs : list (value * list value))
    (acc : list value) (g : G) :
  ∃ drawn g',
    ThreatConnect.sample_sub_partitions G sample subs pct acc g
      = Ok (acc ++ concat drawn, g')
    ∧ Forall2 sample_of subs drawn.
Proof.
  revert acc g. induction subs as [|[t part] subs IH]; intros acc g; simpl.
  - exists [], g. rewrite app_nil_r. split; [done | constructor].
  - destruct (sample_spec g part (ThreatConnect.sample_size part pct))
      as (d & g1 & -> & Hlen & Hsub); [by apply sample_size_bounds|].
    simpl. destruct (IH (acc ++ d) g1) as (ds & g' & -> & Hall).
    exists (d :: ds), g'. simpl. rewrite app_assoc. split; [done|].
    constructor; [|done]. by split.
Qed.

Lemma sample_partitions_spec (vd : ThreatConnect.partitions)
    (acc : list value) (g : G) :
  ∃ drawn g',
    ThreatConnect.sample_partitions G sample vd pct acc g
      = Ok (acc ++ concat (concat drawn), g')
    ∧ Forall2 (fun ks ds => Forall2 sample_of (snd ks) ds) vd drawn.
Proof.
  revert acc g. induction vd as [|[key subs] vd IH]; intros acc g; simpl.
  - exists [], g. rewrite app_nil_r. split; [done | constructor].
  - destruct (sample_sub_partitions_spec subs acc g) as (ds & g1 & -> & Hds).
    simpl. destruct (IH (acc ++ concat ds) g1) as (dss & g' & -> & Hall).
    exists (ds :: dss), g'. simpl. rewrite concat_app, app_assoc.
    split; [done|]. by constructor.
Qed.


End BatchFacts.

(** *** The pool sampler meets the contract of [random.sample] *)

Lemma randbelow_lt (g : list nat) (n : nat) :
  0 < n → fst (Instances.randbelow g n) < n.
Proof.
  intros Hn. destruct g as [|r g]; simpl; [done|].
  apply Nat.mod_upper_bound. lia.
Qed.

(** Drawing position [j] and moving the last candidate into it leaves the
    other candidates in the pool. *)
Lemma pool_step_snoc {A : Type} (l1 : list A) (j : nat) (x y : A) :
  (l1 ++ [y]) !! j = Some x →
  x :: take (length l1) (<[j := y]> (l1 ++ [y])) ≡ₚ l1 ++ [y].
Proof.
  intros Hj.
  assert (Hlen : j < length (l1 ++ [y])) by by apply lookup_lt_Some in Hj.
  rewrite length_app in Hlen. simpl in Hlen.
  destruct (decide (j < length l1)) as [Hlt|Hge].
  - rewrite lookup_app_l in Hj by done.
    rewrite insert_app_l by done.
    rewrite take_app_length' by by rewrite length_insert.
    rewrite insert_take_drop by done.
    rewrite <- (take_drop_middle l1 j x Hj) at 3.
    rewrite <- (Permutation_cons_append _ y).
    rewrite <- !Permutation_middle. apply perm_swap.
  - assert (j = length l1) as -> by lia.
    rewrite list_lookup_middle in Hj by done. inversion Hj; subst x.
    rewrite list_insert_id by by apply list_lookup_middle.
    rewrite take_app_length. apply Permutation_cons_append.
Qed.

Lemma pool_step_Permutation {A : Type} (pool : list A) (j : nat) (x y : A) :
  pool !! j = Some x → pool !! (length pool - 1) = Some y →
  x :: take (length pool - 1) (<[j := y]> pool) ≡ₚ pool.
Proof.
  intros Hj Hlast.
  assert (Hlen : j < length pool) by by apply lookup_lt_Some in Hj.
  assert (Hsplit : pool = take (length pool - 1) pool ++ [y]).
  { rewrite <- (take_drop (length pool - 1) pool) at 1. f_equal.
    rewrite (drop_S _ _ _ Hlast). rewrite drop_ge by lia. done. }
  assert (Hl1 : length (take (length pool - 1) pool) = length pool - 1)
    by (rewrite length_take; lia).
  revert Hj. rewrite Hsplit, length_app, Hl1. simpl.
  replace (length pool - 1 + 1 - 1) with (length (take (length pool - 1) pool)) by lia.
  apply pool_step_snoc.
Qed.

Lemma pool_draw_spec {A : Type} (k : nat) (pool : list A) (g : list nat) :
  (k ≤ length pool)%nat →
  length (fst (Instances.pool_draw k pool g)) = k
  ∧ fst (Instances.pool_draw k pool g) ⊆+ pool.
Proof.
  revert pool g. induction k as [|k IH]; intros pool g Hk; simpl.
  - split; [done | apply submseteq_nil_l].
  - pose proof (randbelow_lt g (length pool)) as Hj.
    destruct (Instances.randbelow g (length pool)) as [j g1]. simpl in Hj.
    destruct (lookup_lt_is_Some_2 pool j) as [x Hx]; [lia|].
    destruct (lookup_lt_is_Some_2 pool (length pool - 1)) as [y Hy]; [lia|].
    rewrite Hx, Hy.
    specialize (IH (take (length pool - 1) (<[j := y]> pool)) g1).
    destruct (Instances.pool_draw k _ g1) as [rest g2]. simpl in *.
    destruct IH as [Hlen Hsub]; [rewrite length_take, length_insert; lia|].
    split; [by rewrite Hlen|].
    rewrite <- (pool_step_Permutation pool j x y Hx Hy). by apply submseteq_skip.
Qed.

Lemma pool_sample_spec (g : list nat) (population : list value) (k : Z) :
  (0 ≤ k ≤ Z.of_nat (length population))%Z →
  ∃ drawn g', Instances.pool_sample g population k = Ok (drawn, g')
            ∧ Z.of_nat (length drawn) = k
            ∧ drawn ⊆+ population.
Proof.
  intros Hk. unfold Instances.pool_sample.
  assert (((k <? 0) || (Z.of_nat (length population) <? k))%Z = false) as ->.
  { apply orb_false_iff. split; apply Z.ltb_ge; lia. }
  destruct (pool_draw_spec (Z.to_nat k) population g) as [Hlen Hsub]; [lia|].
  destruct (Instances.pool_draw (Z.to_nat k) population g) as [drawn g'].
  simpl in *. exists drawn, g'. split; [done|]. split; [lia | done].
Qed.


(** The samples of that run: two of the three addresses, the host, the
    incident and the adversary. *)
Example batch_samples_run :
  let ent (t s : string) := VDict [("type", VStr t); ("summary", VStr s)] in
  ThreatConnect.sample_partitions (list nat) Instances.pool_sample
    [ ("indicator",
        [ (VStr "Address", [ent "Address" "1.1.1.1"; ent "Address" "2.2.2.2";
                            ent "Address" "3.3.3.3"]);
          (VStr "Host", [ent "Host" "a.example"]) ]);
      ("group",
        [ (VStr "Incident", [ent "Incident" "i-1"]);
          (VStr "Adversary", [ent "Adversary" "a-1"]) ]) ]
    50 [] [5; 1; 2; 7; 3]
  = Ok ([ent "Address" "3.3.3.3"; ent "Address" "2.2.2.2"; ent "Host" "a.example";
         ent "Incident" "i-1"; ent "Adversary" "a-1"], []).
Proof. vm_compute. reflexivity. Qed.

(** * Further properties *)

(** ** More on the operators of [Validator] *)

Section ValidatorMore.

Variable ndiff : value → value → diff_stream.
Variable max_diff : Z.
Variable ddiff : Type.
Variable DeepDiff : option (value → value → result ddiff).
Variable ddiff_truthy : ddiff → bool.
Variable json_loads : string → result value.
Variable re_compile : string → result Regex.regex.

Local Abbreviation details_loop := (Validator.details_loop max_diff).
Local Abbreviation operator_eq := (Validator.operator_eq ndiff max_diff ddiff).
Local Abbreviation operator_ne := (Validator.operator_ne ndiff max_diff ddiff).
Local Abbreviation operator_deep_diff :=
  (Validator.operator_deep_diff ddiff DeepDiff ddiff_truthy).
Local Abbreviation operator_json_eq :=
  (Validator.operator_json_eq ddiff DeepDiff ddiff_truthy json_loads).
Local Abbreviation operator_keyvalue_eq :=
  (Validator.operator_keyvalue_eq ddiff DeepDiff ddiff_truthy).
Local Abbreviation operator_regex_match :=
  (Validator.operator_regex_match ddiff re_compile).

(** X1: [operator_ne] is the complement of [operator_eq]: on every pair
    the two return opposite outcomes with the same details, or raise the
    same exception. *)
Theorem operator_ne_complements_eq (app_data tests_data : value) :
  (∀ p d, operator_eq app_data tests_data = Ok (Pair p d)
          ↔ operator_ne app_data tests_data = Ok (Pair (negb p) d))
  ∧ (∀ e, operator_eq app_data tests_data = Raise e
          ↔ operator_ne app_data tests_data = Raise e)
  ∧ operator_eq app_data tests_data ≠ Ok BareFalse
  ∧ operator_ne app_data tests_data ≠ Ok BareFalse.
Proof.
  unfold Validator.operator_eq, Validator.operator_ne, operator_eq_, operator_ne_.
  destruct (Validator.details ndiff max_diff app_data tests_data "eq") as [s|e];
    simpl; repeat split; try discriminate.
  - intros H. inversion H; subst. done.
  - intros H. inversion H as [[Hp Hd]].
    destruct p, (py_eq app_data tests_data); simpl in *; congruence.
  - intros H. by inversion H.
  - intros H. by inversion H.
Qed.




(** *** [operator_deep_diff], [operator_keyvalue_eq], [operator_json_eq] *)

(** X3: when [deepdiff] is there, [operator_deep_diff] passes exactly when
    the diff is empty, and turns a [KeyError] or a [NameError] of the diff
    into a failed comparison: it raises neither. *)
Theorem operator_deep_diff_outcomes (dd : value → value → result ddiff)
    (app_data test_data : value) :
  DeepDiff = Some dd →
  (operator_deep_diff app_data test_data = Ok (Pair true (Text ""))
   ↔ ∃ d, dd app_data test_data = Ok d ∧ ddiff_truthy d = false)
  ∧ (dd app_data test_data = Raise KeyError ∨ dd app_data test_data = Raise NameError →
     ∃ msg, operator_deep_diff app_data test_data = Ok (Pair false (Text msg)))
  ∧ operator_deep_diff app_data test_data ≠ Raise KeyError
  ∧ operator_deep_diff app_data test_data ≠ Raise NameError.
Proof.
  intros ->. unfold Validator.operator_deep_diff.
  destruct (dd app_data test_data) as [d|e] eqn:E.
  - destruct (ddiff_truthy d) eqn:T; repeat split; try discriminate.
    + intros (d' & Hd & Hf). inversion Hd; subst. congruence.
    + intros [H | H]; discriminate.
    + intros _. by exists d.
    + intros [H | H]; discriminate.
  - destruct e; repeat split; try discriminate;
      try (intros (d' & Hd & _); discriminate);
      try (intros [H | H]; discriminate);
      try (intros _; eexists; reflexivity).
Qed.

Lemma keep_not_excluded_dicts (kvs ex : list value) :
  Forall (fun kv => is_dict kv = true) kvs →
  Validator.keep_not_excluded kvs (VList ex) = Ok (not_excluded ex kvs).
Proof.
  induction 1 as [|kv kvs Hkv _ IH]; [done|].
  simpl. destruct kv as [| | | | |d]; try done. simpl.
  rewrite IH. simpl. by destruct (existsb _ ex).
Qed.

(** X4: with a list of keys to exclude and nothing else,
    [operator_keyvalue_eq] deep-diffs what is left of the two KeyValue
    arrays once the entries with an excluded key are dropped. *)
Theorem operator_keyvalue_eq_drops_excluded (app_data test_data exclude_keys : list value) :
  Forall (fun kv => is_dict kv = true) app_data →
  Forall (fun kv => is_dict kv = true) test_data →
  operator_keyvalue_eq (VList app_data) (VList test_data)
    {[ "exclude_keys" := VList exclude_keys ]}
  = operator_deep_diff (VList (not_excluded exclude_keys app_data))
      (VList (not_excluded exclude_keys test_data)).
Proof.
  intros Ha Ht. unfold Validator.operator_keyvalue_eq.
  rewrite lookup_singleton_eq. simpl.
  rewrite !keep_not_excluded_dicts by done. simpl.
  unfold Validator.positional. by rewrite delete_singleton_eq.
Qed.

Lemma dict_get_del (k k' : string) (d : dict) :
  dict_get k' (dict_del k d) = if String.eqb k k' then None else dict_get k' d.
Proof.
  induction d as [|[k0 v] d IH]; simpl.
  - by destruct (String.eqb k k').
  - destruct (String.eqb k k0) eqn:E0.
    + apply String.eqb_eq in E0 as <-. rewrite IH.
      rewrite (String.eqb_sym k' k). by destruct (String.eqb k k').
    + simpl. rewrite IH. destruct (String.eqb k' k0) eqn:E1; [|done].
      apply String.eqb_eq in E1 as ->. by rewrite E0.
Qed.

(** X5: [operator_json_eq] parses the sides that are strings; without an
    exclusion it deep-diffs the two dicts as they are, and with one excluded
    key it deep-diffs them without that key, every other key being
    kept. *)
Theorem operator_json_eq_parses_and_excludes (app_data test_data : value)
    (a t : dict) (k : string) :
  Validator.loads_if_string json_loads app_data = Ok (VDict a) →
  Validator.loads_if_string json_loads test_data = Ok (VDict t) →
  operator_json_eq app_data test_data ∅ = operator_deep_diff (VDict a) (VDict t)
  ∧ operator_json_eq app_data test_data {[ "exclude" := VList [VStr k] ]}
    = operator_deep_diff (VDict (dict_del k a)) (VDict (dict_del k t))
  ∧ ∀ (d : dict) k',
      dict_get k' (dict_del k d) = if String.eqb k k' then None else dict_get k' d.
Proof.
  intros Ha Ht. unfold Validator.operator_json_eq. rewrite Ha, Ht.
  split; [|split].
  - simpl. by rewrite lookup_empty.
  - simpl. rewrite lookup_singleton_eq. simpl.
    rewrite !del_key_of_dict. simpl.
    unfold Validator.kwargs_del. by rewrite lookup_singleton_eq.
  - intros d k'. apply dict_get_del.
Qed.

(** X6: an exclusion by key on a side that is not a JSON object (a list, a
    number, a string, [null]) makes [operator_json_eq] raise [TypeError]. *)
Theorem operator_json_eq_exclusion_needs_dicts (app_data test_data a t : value)
    (kwargs : gmap string value) (k : string) (es : list value) :
  Validator.loads_if_string json_loads app_data = Ok a →
  Validator.loads_if_string json_loads test_data = Ok t →
  is_dict a = false ∨ is_dict t = false →
  kwargs !! "exclude" = Some (VList (VStr k :: es)) →
  operator_json_eq app_data test_data kwargs = Raise TypeError.
Proof.
  intros Ha Ht Hnd Hex. unfold Validator.operator_json_eq.
  rewrite Ha, Ht. simpl. rewrite Hex. simpl.
  destruct a as [| | | | |da].
  1-5: by (unfold py_delitem, except_KeyError_pass).
  destruct Hnd as [Hnd | Hnd]; [done|].
  rewrite del_key_of_dict. simpl.
  destruct t; try done; by (unfold py_delitem, except_KeyError_pass).
Qed.

(** X7: [operator_regex_match] returns only when the pattern and the value
    are both strings and the pattern compiles; a value that is not a string
    ([None] for a variable that was not found, a list) raises instead of
    failing the comparison. *)
Theorem operator_regex_match_returns_iff (app_data test_data : value) :
  (∃ r, operator_regex_match app_data test_data = Ok r)
  ↔ ∃ pattern s rx, test_data = VStr pattern ∧ app_data = VStr s
                  ∧ re_compile pattern = Ok rx.
Proof.
  unfold Validator.operator_regex_match. split.
  - intros [r Hr]. destruct test_data as [| | |pattern| |]; try discriminate.
    destruct (re_compile pattern) as [rx|] eqn:Hc; simpl in Hr; [|discriminate].
    destruct app_data as [| | |s| |]; try discriminate.
    by exists pattern, s, rx.
  - intros (pattern & s & rx & -> & -> & ->). simpl.
    destruct (Regex.match_at_start rx (list_ascii_of_string s)); eauto.
Qed.

End ValidatorMore.


(** X3 on two equal lists. *)
Lemma operator_deep_diff_outcomes_witness :
  Validator.operator_deep_diff bool (Some Instances.differs) id
    (VList [VInt 1]) (VList [VInt 1]) = Ok (Pair true (Text ""))
  ∧ Validator.operator_deep_diff bool (Some Instances.differs) id
      (VList [VInt 1]) (VList [VInt 2]) ≠ Raise KeyError.
Proof.
  destruct (operator_deep_diff_outcomes bool (Some Instances.differs) id
              Instances.differs (VList [VInt 1]) (VList [VInt 1]) eq_refl)
    as (Hpass & _ & _ & _).
  destruct (operator_deep_diff_outcomes bool (Some Instances.differs) id
              Instances.differs (VList [VInt 1]) (VList [VInt 2]) eq_refl)
    as (_ & _ & Hkey & _).
  split; [|exact Hkey]. apply Hpass. by exists false.
Defined.

(** X4 on two arrays that differ in the entry [date] only. *)
Lemma operator_keyvalue_eq_drops_excluded_witness :
  let kv (k v : string) := VDict [("key", VStr k); ("value", VStr v)] in
  Validator.operator_keyvalue_eq bool (Some Instances.differs) id
    (VList [kv "name" "x"; kv "date" "monday"])
    (VList [kv "date" "friday"; kv "name" "x"])
    {[ "exclude_keys" := VList [VStr "date"] ]}
  = Validator.operator_deep_diff bool (Some Instances.differs) id
      (VList [kv "name" "x"]) (VList [kv "name" "x"]).
Proof.
  intros kv.
  apply (operator_keyvalue_eq_drops_excluded bool (Some Instances.differs) id
           [kv "name" "x"; kv "date" "monday"] [kv "date" "friday"; kv "name" "x"]
           [VStr "date"]);
    repeat (apply Forall_cons; split; [reflexivity|]); by apply Forall_nil.
Defined.

(** X5 on two objects given as such. *)
Lemma operator_json_eq_parses_and_excludes_witness :
  let a : dict := [("id", VInt 1); ("date", VStr "monday")] in
  let t : dict := [("id", VInt 1); ("date", VStr "friday")] in
  Validator.operator_json_eq bool (Some Instances.differs) id Instances.loads_null
    (VDict a) (VDict t) {[ "exclude" := VList [VStr "date"] ]}
  = Validator.operator_deep_diff bool (Some Instances.differs) id
      (VDict [("id", VInt 1)]) (VDict [("id", VInt 1)]).
Proof.
  intros a t.
  destruct (operator_json_eq_parses_and_excludes bool (Some Instances.differs) id
              Instances.loads_null (VDict a) (VDict t) a t "date" eq_refl eq_refl)
    as (_ & Hex & _).
  exact Hex.
Defined.

(** X6 on a list against an object, and on the JSON text [null]. *)
Lemma operator_json_eq_exclusion_needs_dicts_witness :
  Validator.operator_json_eq bool (Some Instances.differs) id Instances.loads_null
    (VList [VInt 1]) (VDict [("id", VInt 1)]) {[ "exclude" := VList [VStr "id"] ]}
  = Raise TypeError
  ∧ Validator.operator_json_eq bool (Some Instances.differs) id Instances.loads_null
      (VStr "null") (VDict [("id", VInt 1)]) {[ "exclude" := VList [VStr "id"] ]}
    = Raise TypeError.
Proof.
  split.
  - apply (operator_json_eq_exclusion_needs_dicts bool (Some Instances.differs) id
             Instances.loads_null _ _ (VList [VInt 1]) (VDict [("id", VInt 1)]) _ "id" []);
      [reflexivity | reflexivity | by left | apply lookup_singleton_eq].
  - apply (operator_json_eq_exclusion_needs_dicts bool (Some Instances.differs) id
             Instances.loads_null _ _ VNone (VDict [("id", VInt 1)]) _ "id" []);
      [reflexivity | reflexivity | by left | apply lookup_singleton_eq].
Defined.

(** ** More on [tc_entities] *)

Section EntitiesMore.

Variable tc_entity : value → string → option string → result bool.
(** What the platform answers for the entities at hand. *)
Variable answer : value → option string → bool.

Lemma tc_entities_loop_without_files (entities : list value) (owner : string)
    (files : option (list string)) (index : nat) (results : list bool) :
  ThreatConnect.files_given files = false →
  (∀ e, e ∈ entities → tc_entity e owner None = Ok (answer e None)) →
  ThreatConnect.tc_entities_loop tc_entity entities owner files index results
  = Ok (results ++ map (fun e => answer e None) entities).
Proof.
  intros Hf. revert index results.
  induction entities as [|e entities IH]; intros index results Hans; simpl.
  - by rewrite app_nil_r.
  - rewrite Hf. simpl. rewrite Hans by apply list_elem_of_here. simpl.
    rewrite IH; [by rewrite <- app_assoc|].
    intros e' He'. apply Hans. by apply list_elem_of_further.
Qed.

(** X8: without files ([None], or an empty list, which [if files:] takes
    for none) [tc_entities] skips the length check and returns one result
    for every entity, in the order of the entities. *)
Theorem tc_entities_without_files (entities : list value) (owner : string)
    (files : option (list string)) :
  files = None ∨ files = Some [] →
  (∀ e, e ∈ entities → tc_entity e owner None = Ok (answer e None)) →
  ThreatConnect.tc_entities tc_entity entities owner files
  = Ok (ThreatConnect.ResultList (map (fun e => answer e None) entities)).
Proof.
  intros Hfiles Hans. unfold ThreatConnect.tc_entities.
  assert (Hf : ThreatConnect.files_given files = false)
    by (destruct Hfiles as [-> | ->]; reflexivity).
  rewrite Hf. simpl. by rewrite tc_entities_loop_without_files.
Qed.

Lemma tc_entities_loop_with_files (entities : list value) (owner : string)
    (files rest : list string) (index : nat) (results : list bool) :
  ThreatConnect.files_given (Some files) = true →
  drop index files = rest →
  length rest = length entities →
  (∀ e o, e ∈ entities → tc_entity e owner o = Ok (answer e o)) →
  ThreatConnect.tc_entities_loop tc_entity entities owner (Some files) index results
  = Ok (results
        ++ concat (zip_with (fun e file => [answer e (Some file); answer e None])
                     entities rest)).
Proof.
  intros Hf. revert index rest results.
  induction entities as [|e entities IH]; intros index rest results Hdrop Hlen Hans.
  - simpl. by rewrite app_nil_r.
  - cbn [ThreatConnect.tc_entities_loop]. rewrite Hf.
    change (default [] (Some files)) with files.
    destruct rest as [|file rest]; [done|]. simpl in Hlen.
    assert (Hfile : files !! index = Some file).
    { rewrite <- (Nat.add_0_r index), <- lookup_drop, Hdrop. done. }
    rewrite Hfile. rewrite !Hans by apply list_elem_of_here. simpl.
    rewrite (IH (S index) rest).
    + by rewrite <- !app_assoc.
    + replace (S index) with (index + 1) by lia.
      by rewrite <- drop_drop, Hdrop.
    + lia.
    + intros e' o He'. apply Hans. by apply list_elem_of_further.
Qed.

(** X9: with as many files as entities, [tc_entities] returns two results
    for every entity, the one of the validation with its file followed by
    the one of the validation without it. *)
Theorem tc_entities_with_files (entities : list value) (owner : string)
    (files : list string) :
  files ≠ [] →
  length files = length entities →
  (∀ e o, e ∈ entities → tc_entity e owner o = Ok (answer e o)) →
  ThreatConnect.tc_entities tc_entity entities owner (Some files)
  = Ok (ThreatConnect.ResultList
          (concat (zip_with (fun e file => [answer e (Some file); answer e None])
                     entities files))).
Proof.
  intros Hne Hlen Hans. unfold ThreatConnect.tc_entities.
  assert (Hf : ThreatConnect.files_given (Some files) = true)
    by (destruct files; done).
  rewrite Hf. change (default [] (Some files)) with files.
  rewrite Hlen, Nat.eqb_refl. simpl.
  by rewrite (tc_entities_loop_with_files entities owner files files 0 []).
Qed.

End EntitiesMore.

(** X8 for two entities, and X9 for the same entities with a file each, on
    a platform where the groups validate and nothing else. *)
Lemma tc_entities_without_files_witness :
  let tc (e : value) (owner : string) (file : option string) :=
    Ok (py_eq (default VNone (dict_get "type" match e with VDict d => d | _ => [] end))
          (VStr "Group")) in
  let g := VDict [("type", VStr "Group")] in
  let i := VDict [("type", VStr "Indicator")] in
  ThreatConnect.tc_entities tc [g; i] "TCI" (Some [])
  = Ok (ThreatConnect.ResultList [true; false]).
Proof.
  intros tc g i.
  apply (tc_entities_without_files tc
           (fun e _ => py_eq (default VNone
                                (dict_get "type" match e with VDict d => d | _ => [] end))
                         (VStr "Group")) [g; i] "TCI" (Some []));
    [by right | reflexivity].
Defined.

Lemma tc_entities_with_files_witness :
  let tc (e : value) (owner : string) (file : option string) :=
    Ok (py_eq (default VNone (dict_get "type" match e with VDict d => d | _ => [] end))
          (VStr "Group")) in
  let g := VDict [("type", VStr "Group")] in
  let i := VDict [("type", VStr "Indicator")] in
  ThreatConnect.tc_entities tc [g; i] "TCI" (Some ["a.pdf"; "b.pdf"])
  = Ok (ThreatConnect.ResultList [true; true; false; false]).
Proof.
  intros tc g i.
  apply (tc_entities_with_files tc
           (fun e _ => py_eq (default VNone
                                (dict_get "type" match e with VDict d => d | _ => [] end))
                         (VStr "Group")) [g; i] "TCI" ["a.pdf"; "b.pdf"]);
    [discriminate | reflexivity | reflexivity].
Defined.

(** ** The verdict of [compare_lists] *)

Section CompareListsVerdict.
Context {A : Type} `{EqDecision A}.
Implicit Types (h : gmap ThreatConnect.loc (list A)) (expected actual : ThreatConnect.loc).

Lemma remove_first_Permutation (x : A) (l : list A) :
  x ∈ l → l ≡ₚ x :: ThreatConnect.remove_first x l.
Proof.
  induction l as [|y l IH]; intros Hx; [by apply elem_of_nil in Hx|].
  simpl. destruct (decide (x = y)) as [->|Hne]; [done|].
  apply elem_of_cons in Hx as [-> | Hx]; [done|].
  rewrite (IH Hx) at 1. apply perm_swap.
Qed.

Lemma submseteq_cons_found (x : A) (rest l : list A) :
  x ∈ l → (x :: rest ⊆+ l ↔ rest ⊆+ ThreatConnect.remove_first x l).
Proof.
  intros Hx. rewrite (remove_first_Permutation x l Hx) at 1. split.
  - intros Hs. by apply (submseteq_app_inv_l _ _ [x]).
  - intros Hs. by apply submseteq_skip.
Qed.

Lemma remove_found_complement (exp act : list A) :
  exp ⊆+ act → exp ++ ThreatConnect.remove_found exp act ≡ₚ act.
Proof.
  revert act. induction exp as [|x exp IH]; intros act Hs; [done|].
  assert (Hx : x ∈ act).
  { eapply elem_of_submseteq; [|exact Hs]. apply list_elem_of_here. }
  simpl. rewrite bool_decide_eq_true_2 by done.
  rewrite (remove_first_Permutation x act Hx) at 2.
  constructor. apply IH. by apply submseteq_cons_found.
Qed.

Lemma compare_lists_loop_verdict (fuel i : nat) expected actual h (valid : bool) :
  expected ≠ actual →
  length (h !!! expected) - i < fuel →
  ∃ valid' h',
    ThreatConnect.compare_lists_loop fuel i expected actual h valid = Some (valid', h')
    ∧ h' !!! actual
      = ThreatConnect.remove_found (drop i (h !!! expected)) (h !!! actual)
    ∧ (valid' = true ↔ valid = true ∧ drop i (h !!! expected) ⊆+ h !!! actual).
Proof.
  intros Hne. revert i h valid.
  induction fuel as [|fuel IH]; intros i h valid Hfuel; [lia|].
  simpl. destruct ((h !!! expected) !! i) as [item|] eqn:Hi.
  - rewrite (drop_S _ _ _ Hi). simpl.
    apply lookup_lt_Some in Hi.
    destruct (bool_decide (item ∈ h !!! actual)) eqn:Hin.
    + apply bool_decide_eq_true in Hin.
      destruct (IH (S i) (<[actual := ThreatConnect.remove_first item (h !!! actual)]> h) valid)
        as (valid' & h' & Hrun & Hact & Hv).
      { rewrite lookup_total_insert_ne by done. lia. }
      rewrite lookup_total_insert_eq, lookup_total_insert_ne in Hact by done.
      rewrite lookup_total_insert_eq, lookup_total_insert_ne in Hv by done.
      exists valid', h'. split; [done|]. split; [done|].
      rewrite Hv. by rewrite submseteq_cons_found.
    + apply bool_decide_eq_false in Hin.
      destruct (IH (S i) h false) as (valid' & h' & Hrun & Hact & Hv); [lia|].
      exists valid', h'. split; [done|]. split; [done|].
      rewrite Hv. split; [by intros [? _]|].
      intros [_ Hs]. exfalso. apply Hin.
      eapply elem_of_submseteq; [|exact Hs]. apply list_elem_of_here.
  - apply lookup_ge_None in Hi. rewrite drop_ge by done.
    exists valid, h. split; [done|]. split; [done|].
    split; [intros ->; split; [done | apply submseteq_nil_l] | by intros [? _]].
Qed.

(** X10: on two distinct list objects [compare_lists] returns [True]
    exactly when the two lists hold the same items the same number of
    times, in whatever order. *)
Theorem compare_lists_valid_iff_same_items expected actual h :
  expected ≠ actual →
  ∃ valid h',
    ThreatConnect.compare_lists expected actual h = Some (valid, h')
    ∧ (valid = true ↔ h !!! expected ≡ₚ h !!! actual).
Proof.
  intros Hne. unfold ThreatConnect.compare_lists.
  destruct (compare_lists_loop_verdict (S (length (h !!! expected))) 0
              expected actual h true Hne) as (valid & h' & -> & Hact & Hv); [lia|].
  simpl. rewrite drop_0 in Hact, Hv. eexists _, h'. split; [reflexivity|].
  rewrite Hact. split.
  - intros Hvalid.
    destruct (ThreatConnect.remove_found (h !!! expected) (h !!! actual)) eqn:Hleft;
      [|done].
    apply Hv in Hvalid as [_ Hs].
    apply remove_found_complement in Hs. by rewrite Hleft, app_nil_r in Hs.
  - intros Hperm.
    assert (Hs : h !!! expected ⊆+ h !!! actual) by by rewrite Hperm.
    pose proof (remove_found_complement _ _ Hs) as Hc.
    assert (Hlen : length (ThreatConnect.remove_found (h !!! expected) (h !!! actual)) = 0).
    { apply Permutation_length in Hc, Hperm. rewrite length_app in Hc. lia. }
    destruct (ThreatConnect.remove_found (h !!! expected) (h !!! actual)); [|done].
    apply Hv. by split.
Qed.

End CompareListsVerdict.

(** X10 on the tags [a, b, a] against [b, a, a] and against [a, b]. *)
Lemma compare_lists_valid_iff_same_items_witness :
  let same : gmap ThreatConnect.loc (list string) :=
    {[ 0 := ["a"; "b"; "a"]; 1 := ["b"; "a"; "a"] ]} in
  let fewer : gmap ThreatConnect.loc (list string) :=
    {[ 0 := ["a"; "b"; "a"]; 1 := ["a"; "b"] ]} in
  (∃ h', ThreatConnect.compare_lists 0 1 same = Some (true, h'))
  ∧ (∃ h', ThreatConnect.compare_lists 0 1 fewer = Some (false, h')).
Proof.
  intros same fewer. split.
  - destruct (compare_lists_valid_iff_same_items 0 1 same) as (valid & h' & Hrun & Hv);
      [discriminate|].
    exists h'. destruct valid; [exact Hrun|].
    vm_compute in Hrun. discriminate.
  - destruct (compare_lists_valid_iff_same_items 0 1 fewer) as (valid & h' & Hrun & Hv);
      [discriminate|].
    exists h'. destruct valid; [|exact Hrun].
    vm_compute in Hrun. discriminate.
Defined.

(** ** The verdict of [compare_dicts] *)

Section CompareDictsVerdict.
Context {K V : Type} `{EqDecision K}.
Variable str_ne : V → V → bool.
Implicit Types (h : gmap ThreatConnect.loc (list (K * V))) (expected actual : ThreatConnect.loc).
Implicit Types (d : list (K * V)).

Local Abbreviation get := (alist_get ThreatConnect.key_eqb).
Local Abbreviation del := (alist_del ThreatConnect.key_eqb).

Lemma alist_get_member (k : K) (v : V) d :
  NoDup (map fst d) → (get k d = Some v ↔ (k, v) ∈ d).
Proof.
  induction d as [|[k' v'] d IH]; simpl; intros Hnd.
  - split; [done | by intros ?%elem_of_nil].
  - apply NoDup_cons in Hnd as [Hk' Hnd]. unfold ThreatConnect.key_eqb at 1.
    destruct (decide (k = k')) as [->|Hne].
    + rewrite bool_decide_eq_true_2 by done. split.
      * intros [= ->]. apply list_elem_of_here.
      * intros [[= ->] | Hin]%elem_of_cons; [done|].
        exfalso. apply Hk'. apply list_elem_of_fmap. by exists (k', v).
    + rewrite bool_decide_eq_false_2 by done. rewrite (IH Hnd). split.
      * apply list_elem_of_further.
      * intros [[= -> ->] | Hin]%elem_of_cons; done.
Qed.

Lemma alist_get_del_ne (k k' : K) d :
  k ≠ k' → get k (del k' d) = get k d.
Proof.
  intros Hne. induction d as [|[k0 v0] d IH]; simpl; [done|].
  destruct (ThreatConnect.key_eqb k' k0) eqn:E0;
    destruct (ThreatConnect.key_eqb k k0) eqn:E; simpl; rewrite ?E; try done.
  apply bool_decide_eq_true in E0, E. congruence.
Qed.

Lemma alist_del_member (k : K) (kv : K * V) d :
  NoDup (map fst d) → (kv ∈ del k d ↔ kv ∈ d ∧ fst kv ≠ k).
Proof.
  induction d as [|[k0 v0] d IH]; simpl; intros Hnd.
  - split; [by intros ?%elem_of_nil | by intros [?%elem_of_nil _]].
  - apply NoDup_cons in Hnd as [Hk0 Hnd]. unfold ThreatConnect.key_eqb at 1.
    destruct (decide (k = k0)) as [->|Hne].
    + rewrite bool_decide_eq_true_2 by done. split.
      * intros Hin. split; [by apply list_elem_of_further|].
        intros Heq. apply Hk0. apply list_elem_of_fmap. by exists kv.
      * intros [[-> | Hin]%elem_of_cons Hk]; done.
    + rewrite bool_decide_eq_false_2 by done.
      rewrite !elem_of_cons, (IH Hnd). split.
      * intros [-> | [Hin Hk]]; [split; [by left | by simpl; congruence]|].
        split; [by right | done].
      * intros [[-> | Hin] Hk]; [by left | by right].
Qed.

Lemma alist_del_NoDup (k : K) d :
  NoDup (map fst d) → NoDup (map fst (del k d)).
Proof.
  induction d as [|[k0 v0] d IH]; simpl; intros Hnd; [done|].
  apply NoDup_cons in Hnd as [Hk0 Hnd].
  destruct (ThreatConnect.key_eqb k k0); [done|]. simpl.
  apply NoDup_cons. split; [|by apply IH].
  intros [kv [Hkv Hin]]%list_elem_of_fmap.
  apply (alist_del_member k kv d Hnd) in Hin as [Hin _].
  apply Hk0. apply list_elem_of_fmap. by exists kv.
Qed.

Lemma pop_found_nil (exp act : list (K * V)) :
  NoDup (map fst act) →
  (ThreatConnect.pop_found exp act = [] ↔ ∀ kv, kv ∈ act → fst kv ∈ map fst exp).
Proof.
  revert act. induction exp as [|[k e] exp IH]; intros act Hnd; simpl.
  - split.
    + intros -> kv Hin. by apply elem_of_nil in Hin.
    + intros Hall. destruct act as [|kv act]; [done|].
      specialize (Hall kv (list_elem_of_here _ _)). by apply elem_of_nil in Hall.
  - rewrite (IH _ (alist_del_NoDup k act Hnd)). split.
    + intros Hall kv Hin. destruct (decide (fst kv = k)) as [<-|Hne].
      * apply list_elem_of_here.
      * apply list_elem_of_further, Hall. by apply alist_del_member.
    + intros Hall kv [Hin Hne]%alist_del_member; [|done].
      specialize (Hall kv Hin). by apply elem_of_cons in Hall as [? | ?].
Qed.

Lemma member_of_take {B : Type} (x : B) (n : nat) (l : list B) :
  x ∈ take n l → x ∈ l.
Proof.
  intros Hin. rewrite <- (take_drop n l). apply elem_of_app. by left.
Qed.

Lemma later_keys_differ (E : list (K * V)) (i : nat) (item : K) (e0 : V) :
  NoDup (map fst E) → E !! i = Some (item, e0) →
  ∀ ke, ke ∈ drop (S i) E → fst ke ≠ item.
Proof.
  intros Hnd Hi ke Hin Heq.
  rewrite <- (take_drop_middle E i (item, e0) Hi) in Hnd.
  rewrite map_app in Hnd. apply NoDup_app in Hnd as (_ & _ & Hnd).
  simpl in Hnd. apply NoDup_cons in Hnd as [Hnot _].
  apply Hnot. rewrite <- Heq. apply list_elem_of_fmap. by exists ke.
Qed.

Local Abbreviation matched := (entry_matched str_ne).

Lemma compare_dicts_loop_verdict (remaining i : nat) expected actual h (valid : bool) :
  expected ≠ actual →
  NoDup (map fst (h !!! expected)) →
  ∃ valid' h',
    ThreatConnect.compare_dicts_loop str_ne remaining (length (h !!! expected)) i
      expected actual h valid = Ok (valid', h')
    ∧ h' !!! actual
      = ThreatConnect.pop_found (take remaining (drop i (h !!! expected))) (h !!! actual)
    ∧ (valid' = true
       ↔ valid = true
         ∧ Forall (matched (h !!! actual)) (take remaining (drop i (h !!! expected)))).
Proof.
  intros Hne. revert i h valid.
  induction remaining as [|remaining IH]; intros i h valid Hnd; simpl;
    rewrite Nat.eqb_refl; simpl.
  - exists valid, h. split; [done|]. split; [done|].
    split; [intros ->; split; [done | by apply Forall_nil] | by intros [? _]].
  - destruct ((h !!! expected) !! i) as [[item e0]|] eqn:Hi.
    + rewrite (drop_S _ _ _ Hi). simpl.
      assert (He0 : get item (h !!! expected) = Some e0).
      { apply alist_get_member; [done|]. by apply list_elem_of_lookup_2 in Hi. }
      rewrite He0.
      destruct (get item (h !!! actual)) as [a|] eqn:Ha.
      * set (valid1 := if str_ne e0 a then false else valid).
        set (h1 := <[actual := del item (h !!! actual)]> h).
        assert (Hexp : h1 !!! expected = h !!! expected)
          by (subst h1; by rewrite lookup_total_insert_ne).
        assert (Hact1 : h1 !!! actual = del item (h !!! actual))
          by (subst h1; by rewrite lookup_total_insert_eq).
        destruct (IH (S i) h1 valid1) as (valid' & h' & Hrun & Hact & Hv);
          [by rewrite Hexp|].
        rewrite Hexp in Hrun, Hact, Hv. rewrite Hact1 in Hact, Hv.
        exists valid', h'. split; [done|]. split; [done|].
        rewrite Hv, Forall_cons. unfold entry_matched at 2. simpl. rewrite Ha.
        assert (Hrest : Forall (matched (del item (h !!! actual)))
                          (take remaining (drop (S i) (h !!! expected)))
                        ↔ Forall (matched (h !!! actual))
                            (take remaining (drop (S i) (h !!! expected)))).
        { rewrite !Forall_forall. split; intros Hall ke Hin;
            destruct (Hall ke Hin) as (a' & Hg & Hs); exists a'; split; try done.
          - rewrite alist_get_del_ne in Hg; [done|].
            eapply later_keys_differ; [done | exact Hi |].
            eapply member_of_take; exact Hin.
          - rewrite alist_get_del_ne; [done|].
            eapply later_keys_differ; [done | exact Hi |].
            eapply member_of_take; exact Hin. }
        rewrite Hrest. subst valid1. split.
        -- intros [Hv1 Hall]. destruct (str_ne e0 a) eqn:Hs; [done|].
           split; [done|]. split; [by exists a | done].
        -- intros (Hvalid & (a' & [= <-] & Hs) & Hall). by rewrite Hs.
      * destruct (IH (S i) h false) as (valid' & h' & Hrun & Hact & Hv); [done|].
        exists valid', h'. split; [done|]. split.
        -- rewrite Hact. by rewrite alist_del_absent.
        -- rewrite Hv. split; [by intros [? _]|].
           intros [_ Hall]. apply Forall_cons in Hall as [(a' & Hg & _) _].
           simpl in Hg. congruence.
    + apply lookup_ge_None in Hi. rewrite drop_ge by done. rewrite take_nil.
      exists valid, h. split; [done|]. split; [done|].
      split; [intros ->; split; [done | by apply Forall_nil] | by intros [? _]].
Qed.

(** X11: on two distinct dict objects with distinct keys, [compare_dicts]
    returns [True] exactly when every entry of [expected] has its key in
    [actual] with a value equal to the string form of the expected one, and
    [actual] has no other key. *)
Theorem compare_dicts_valid_iff_same_entries expected actual h :
  expected ≠ actual →
  NoDup (map fst (h !!! expected)) →
  NoDup (map fst (h !!! actual)) →
  ∃ valid h',
    ThreatConnect.compare_dicts str_ne expected actual h = Ok (valid, h')
    ∧ (valid = true
       ↔ (∀ k e, (k, e) ∈ h !!! expected →
            ∃ a, (k, a) ∈ h !!! actual ∧ str_ne e a = false)
         ∧ (∀ k a, (k, a) ∈ h !!! actual → k ∈ map fst (h !!! expected))).
Proof.
  intros Hne Hnde Hnda. unfold ThreatConnect.compare_dicts.
  destruct (compare_dicts_loop_verdict (length (h !!! expected)) 0
              expected actual h true Hne Hnde) as (valid & h' & -> & Hact & Hv).
  rewrite drop_0, firstn_all in Hact, Hv.
  simpl. eexists _, h'. split; [reflexivity|].
  rewrite Hact.
  assert (Hleft : ThreatConnect.pop_found (h !!! expected) (h !!! actual) = []
                  ↔ ∀ k a, (k, a) ∈ h !!! actual → k ∈ map fst (h !!! expected)).
  { rewrite (pop_found_nil _ _ Hnda). split.
    - intros Hall k a Hin. apply (Hall (k, a) Hin).
    - intros Hall [k a] Hin. by apply (Hall k a). }
  assert (Hmatch : Forall (matched (h !!! actual)) (h !!! expected)
                   ↔ ∀ k e, (k, e) ∈ h !!! expected →
                       ∃ a, (k, a) ∈ h !!! actual ∧ str_ne e a = false).
  { rewrite Forall_forall. split.
    - intros Hall k e Hin. destruct (Hall (k, e) Hin) as (a & Hg & Hs).
      exists a. split; [by apply alist_get_member in Hg | done].
    - intros Hall [k e] Hin. destruct (Hall k e Hin) as (a & Hg & Hs).
      exists a. split; [by apply alist_get_member | done]. }
  rewrite <- Hleft, <- Hmatch. split.
  - intros Hvalid.
    destruct (ThreatConnect.pop_found (h !!! expected) (h !!! actual)); [|done].
    apply Hv in Hvalid as [_ Hall]. done.
  - intros [Hall ->]. apply Hv. by split.
Qed.

End CompareDictsVerdict.

(** X11 on the attributes [Description] and [Source] given in two
    orders. *)
Lemma compare_dicts_valid_iff_same_entries_witness :
  let attributes : gmap ThreatConnect.loc (list (string * string)) :=
    {[ 0 := [("Description", "x"); ("Source", "y")];
       1 := [("Source", "y"); ("Description", "x")] ]} in
  ∃ h', ThreatConnect.compare_dicts (fun e a => negb (String.eqb e a)) 0 1 attributes
        = Ok (true, h').
Proof.
  intros attributes.
  destruct (compare_dicts_valid_iff_same_entries
              (fun e a : string => negb (String.eqb e a)) 0 1 attributes)
    as (valid & h' & Hrun & Hv).
  - discriminate.
  - apply (bool_decide_unpack _). vm_compute. exact I.
  - apply (bool_decide_unpack _). vm_compute. exact I.
  - exists h'. destruct valid; [exact Hrun|].
    vm_compute in Hrun. discriminate.
Defined.

(** ** [flatten] *)

Lemma flatten_item_list (l : list value) :
  ThreatConnect.flatten_item (VList l) = ThreatConnect.flatten l.
Proof.
  simpl. induction l as [|x l IH]; [done|]. simpl. by rewrite IH.
Qed.

Lemma flatten_app (l1 l2 : list value) :
  ThreatConnect.flatten (l1 ++ l2)
  = ThreatConnect.flatten l1 ++ ThreatConnect.flatten l2.
Proof.
  induction l1 as [|x l1 IH]; [done|]. simpl. by rewrite IH, app_assoc.
Qed.

Lemma flatten_of_flat (l : list value) :
  Forall (fun v => is_list v = false) l → ThreatConnect.flatten l = l.
Proof.
  induction 1 as [|x l Hx _ IH]; [done|].
  simpl. rewrite IH. by destruct x.
Qed.

Lemma flatten_item_flat (v : value) :
  Forall (fun x => is_list x = false) (ThreatConnect.flatten_item v).
Proof.
  induction v as [| b | n | s | l IH | d IH] using value_nested_ind;
    try (apply Forall_cons; split; [done | by apply Forall_nil]).
  pose proof (flatten_item_list l) as E. simpl in E |- *. rewrite E. clear E.
  induction IH as [|x l Hx _ IHl]; [by apply Forall_nil|].
  simpl. apply Forall_app. by split.
Qed.

Lemma flatten_keeps_items (lis : list value) :
  List.filter (fun x => negb (is_list x)) lis `sublist_of` ThreatConnect.flatten lis.
Proof.
  induction lis as [|x lis IH]; [done|].
  cbn [ThreatConnect.flatten].
  destruct x as [| | | |l|]; try (by apply sublist_skip).
  rewrite flatten_item_list.
  change (List.filter _ (VList l :: lis))
    with (List.filter (fun x => negb (is_list x)) lis).
  by apply sublist_inserts_l.
Qed.

(** X12: what [flatten] returns holds no list, whatever the depth of the
    nesting; it holds the items of its argument that are no lists, in their
    order; and flattening again, or flattening a list without nested lists,
    changes nothing. *)
Theorem flatten_is_flat_and_idempotent (lis : list value) :
  Forall (fun x => is_list x = false) (ThreatConnect.flatten lis)
  ∧ ThreatConnect.flatten (ThreatConnect.flatten lis) = ThreatConnect.flatten lis
  ∧ List.filter (fun x => negb (is_list x)) lis `sublist_of` ThreatConnect.flatten lis
  ∧ (Forall (fun x => is_list x = false) lis → ThreatConnect.flatten lis = lis).
Proof.
  assert (Hflat : Forall (fun x => is_list x = false) (ThreatConnect.flatten lis)).
  { induction lis as [|x lis IH]; [by apply Forall_nil|].
    cbn [ThreatConnect.flatten]. apply Forall_app.
    split; [apply flatten_item_flat | done]. }
  split; [done|]. split; [by apply flatten_of_flat|].
  split; [apply flatten_keeps_items | apply flatten_of_flat].
Qed.

(** X12 on [[1, [2, [3, []]], "a"]]. *)
Lemma flatten_is_flat_and_idempotent_witness :
  ThreatConnect.flatten
    [VInt 1; VList [VInt 2; VList [VInt 3; VList []]]; VStr "a"]
  = [VInt 1; VInt 2; VInt 3; VStr "a"]
  ∧ ThreatConnect.flatten [VInt 1; VInt 2] = [VInt 1; VInt 2].
Proof.
  split; [reflexivity|].
  destruct (flatten_is_flat_and_idempotent [VInt 1; VInt 2]) as (_ & _ & _ & Hid).
  apply Hid. repeat (apply Forall_cons; split; [reflexivity|]). by apply Forall_nil.
Defined.

(** ** When [_partition_batch_data] returns *)

Lemma partition_sub_data_returns_iff (subs : list value)
    (psd : list (value * list value)) :
  (∃ psd', ThreatConnect.partition_sub_data subs psd = Ok psd')
  ↔ Forall entity_ok subs.
Proof.
  revert psd. induction subs as [|e subs IH]; intros psd; simpl.
  - split; [intros _; by apply Forall_nil | intros _; by exists psd].
  - rewrite Forall_cons. unfold entity_ok at 1.
    destruct (py_get e "type") as [t|ex] eqn:Hget; simpl.
    + destruct (hashable t) eqn:Hh; simpl.
      * rewrite IH. split; [intros Hall; split; [by exists t | done] | by intros [_ ?]].
      * split; [by intros [? ?] | intros [(t' & [= <-] & Hh') _]; congruence].
    + split; [by intros [? ?] | by intros [(t' & ? & _) _]].
Qed.

Lemma partition_keys_returns_iff (keys : list string) (data : dict)
    (pd : ThreatConnect.partitions) :
  (∃ pd', ThreatConnect.partition_keys keys data pd = Ok pd')
  ↔ Forall (fun key => ∃ items,
              py_iter (default VNone (dict_get key data)) = Ok items
              ∧ Forall entity_ok items) keys.
Proof.
  revert pd. induction keys as [|key keys IH]; intros pd; simpl.
  - split; [intros _; by apply Forall_nil | intros _; by exists pd].
  - rewrite Forall_cons.
    destruct (py_iter (default VNone (dict_get key data))) as [items|ex]; simpl.
    + pose proof (partition_sub_data_returns_iff items []) as Hsub.
      destruct (ThreatConnect.partition_sub_data items []) as [psd|ex]; simpl.
      * rewrite IH. split.
        -- intros Hall. split; [|done]. exists items. split; [done|].
           apply Hsub. by exists psd.
        -- by intros [_ ?].
      * split; [by intros [? ?]|].
        intros [(items' & [= <-] & Hok) _]. apply Hsub in Hok as [? ?]. done.
    + split; [by intros [? ?] | by intros [(items' & ? & _) _]].
Qed.

(** X13: [_partition_batch_data] returns exactly when, under every
    top-level key, the file has a sequence of entities that each answer
    [get('type')] with a hashable value; otherwise it raises. *)
Theorem partition_batch_data_returns_iff (data : dict) :
  (∃ vd, ThreatConnect._partition_batch_data data = Ok vd)
  ↔ Forall (fun key => ∃ items,
              py_iter (default VNone (dict_get key data)) = Ok items
              ∧ Forall entity_ok items) (dict_keys data).
Proof. apply partition_keys_returns_iff. Qed.

(** ** [batch]: what is validated *)

Lemma alist_get_fresh_key {V : Type} (k : string) (d : list (string * V)) :
  k ∉ map fst d → alist_get String.eqb k d = None.
Proof.
  induction d as [|[k' v] d IH]; simpl; intros Hk; [done|].
  destruct (String.eqb k k') eqn:E.
  - apply String.eqb_eq in E as ->. exfalso. apply Hk, list_elem_of_here.
  - apply IH. intros Hin. apply Hk. by apply list_elem_of_further.
Qed.

(** With distinct top-level keys the partitions come key after key, and the
    parts of a key hold the entities of that key. *)
Lemma partition_keys_in_order (keys : list string) (data : dict)
    (pd pd' : ThreatConnect.partitions) :
  NoDup keys → (∀ k, k ∈ keys → k ∉ map fst pd) →
  ThreatConnect.partition_keys keys data pd = Ok pd' →
  ∃ new, pd' = pd ++ new
       ∧ Forall2 (fun key ks =>
                    ∃ items, py_iter (default VNone (dict_get key data)) = Ok items
                           ∧ concat (map snd (snd ks)) ≡ₚ items) keys new.
Proof.
  revert pd. induction keys as [|key keys IH]; intros pd Hnd Hfresh Hrun; simpl in Hrun.
  - inversion Hrun; subst. exists []. split; [by rewrite app_nil_r | constructor].
  - apply NoDup_cons in Hnd as [Hkey Hnd].
    destruct (py_iter (default VNone (dict_get key data))) as [items|] eqn:Hit;
      simpl in Hrun; [|done].
    destruct (ThreatConnect.partition_sub_data items []) as [psd|] eqn:Hsub;
      simpl in Hrun; [|done].
    rewrite alist_set_fresh in Hrun
      by (apply alist_get_fresh_key, Hfresh, list_elem_of_here).
    destruct (IH (pd ++ [(key, psd)]) Hnd) as (new & -> & Hall); [|exact Hrun|].
    { intros k Hk. rewrite map_app. simpl. intros [Hin | Hin]%elem_of_app.
      - by apply (Hfresh k); [apply list_elem_of_further|].
      - apply list_elem_of_singleton in Hin as ->. done. }
    exists ((key, psd) :: new). split; [by rewrite <- app_assoc|].
    constructor; [|done]. exists items. split; [done|].
    by destruct (partition_sub_data_spec items [] [] psd partition_of_nil Hsub) as [? _].
Qed.

Lemma parts_of_entries (d data : dict) (new : ThreatConnect.partitions) :
  (∀ kv, kv ∈ d → dict_get (fst kv) data = Some (snd kv)) →
  Forall2 (fun key ks =>
             ∃ items, py_iter (default VNone (dict_get key data)) = Ok items
                    ∧ concat (map snd (snd ks)) ≡ₚ items) (dict_keys d) new →
  concat (map (fun ks => concat (map snd (snd ks))) new) ≡ₚ entities_of d.
Proof.
  unfold entities_of, dict_keys. revert new.
  induction d as [|kv d IH]; intros new Hget Hall; simpl in Hall.
  - by inversion Hall.
  - inversion Hall as [|key ks keys' new' (items & Hit & Hperm) Hrest]; subst.
    simpl. rewrite (Hget kv) in Hit by apply list_elem_of_here. simpl in Hit.
    rewrite Hit, Hperm. f_equiv. apply IH; [|done].
    intros kv' Hin. apply Hget. by apply list_elem_of_further.
Qed.

Lemma partitions_hold_the_entities (data : dict) (vd : ThreatConnect.partitions) :
  NoDup (dict_keys data) →
  ThreatConnect._partition_batch_data data = Ok vd →
  concat (map (fun ks => concat (map snd (snd ks))) vd) ≡ₚ entities_of data.
Proof.
  intros Hnd Hrun. unfold ThreatConnect._partition_batch_data in Hrun.
  destruct (partition_keys_in_order (dict_keys data) data [] vd Hnd)
    as (new & -> & Hall); [by intros k _ ?%elem_of_nil | done |].
  simpl. apply (parts_of_entries data data new); [|done].
  intros [k v] Hin. by apply dict_get_of_member.
Qed.

Lemma full_sample_size (n : Z) : Qceiling (inject_Z n * (100 / 100))%Q = n.
Proof.
  rewrite <- (Qceiling_Z n) at 2. apply Qceiling_comp.
  unfold Qeq. simpl. lia.
Qed.

Lemma full_samples (subs : list (value * list value)) (ds : list (list value)) :
  Forall2 (sample_of 100) subs ds → concat ds ≡ₚ concat (map snd subs).
Proof.
  induction 1 as [|[t part] d subs' ds' [Hsub Hlen] _ IH]; [done|].
  simpl in *. rewrite IH. f_equiv.
  apply submseteq_length_Permutation; [done|].
  rewrite full_sample_size in Hlen. lia.
Qed.

Section BatchMore.

Variable tc_entity : value → string → option string → result bool.
Variable answer : value → bool.
Variable G : Type.
Variable sample : G → list value → Z → result (list value * G).

Hypothesis sample_spec : ∀ g population k,
  (0 ≤ k ≤ Z.of_nat (length population))%Z →
  ∃ drawn g', sample g population k = Ok (drawn, g')
            ∧ Z.of_nat (length drawn) = k
            ∧ drawn ⊆+ population.

(** X14: at 100 percent, the default of [batch], the sampled data of a
    file with distinct top-level keys are all its entities, each one as many
    times as the file has it. *)
Theorem batch_at_100_percent_samples_everything (data : dict)
    (vd : ThreatConnect.partitions) (g : G) :
  NoDup (dict_keys data) →
  ThreatConnect._partition_batch_data data = Ok vd →
  ∃ sampled g',
    ThreatConnect.sample_partitions G sample vd 100 [] g = Ok (sampled, g')
    ∧ sampled ≡ₚ entities_of data.
Proof.
  intros Hnd Hpart.
  destruct (sample_partitions_spec G sample sample_spec 100) with (vd := vd)
    (acc := @nil value) (g := g) as (drawn & g' & Hrun & Hall);
    [discriminate | discriminate |].
  exists (concat (concat drawn)), g'. split; [done|].
  rewrite <- (partitions_hold_the_entities data vd Hnd Hpart).
  clear Hrun Hpart. induction Hall as [|[key subs] ds vd' drawn' Hds _ IH]; [done|].
  simpl. rewrite concat_app, IH. f_equiv. by apply full_samples.
Qed.

(** X15: [batch] passes a file exactly when every sampled entity
    validates; otherwise its assertion fails. *)
Theorem batch_file_passes_iff_samples_validate (data : dict)
    (vd : ThreatConnect.partitions) (owner : string) (pct : Q) (g : G) :
  (0 <= pct)%Q → (pct <= 100)%Q →
  (∀ e, tc_entity e owner None = Ok (answer e)) →
  ThreatConnect._partition_batch_data data = Ok vd →
  ∃ sampled g',
    ThreatConnect.sample_partitions G sample vd pct [] g = Ok (sampled, g')
    ∧ ThreatConnect.batch_file tc_entity G sample data owner pct g
      = if forallb answer sampled then Ok g' else Raise AssertionError.
Proof.
  intros H0 H100 Hans Hpart.
  destruct (sample_partitions_spec G sample sample_spec pct H0 H100 vd [] g)
    as (drawn & g' & Hrun & _).
  simpl in Hrun. exists (concat (concat drawn)), g'. split; [done|].
  unfold ThreatConnect.batch_file. rewrite Hpart. simpl. rewrite Hrun. simpl.
  unfold ThreatConnect.tc_entities. cbn [ThreatConnect.files_given andb].
  rewrite (tc_entities_loop_without_files tc_entity (fun e _ => answer e)
             (concat (concat drawn)) owner None 0 []) by (done || by intros).
  assert (Hall : ∀ l, forallb id (map (fun e => answer e) l) = forallb answer l).
  { induction l as [|e l IH]; [done|]. simpl. by rewrite IH. }
  cbn [mbind result_bind ThreatConnect.all_passed app]. by rewrite Hall.
Qed.

End BatchMore.

(** X14 on a file with four indicators and two groups. *)
Lemma batch_at_100_percent_samples_everything_witness :
  let ent (t s : string) := VDict [("type", VStr t); ("summary", VStr s)] in
  let data : dict :=
    [ ("indicator", VList [ent "Address" "1.1.1.1"; ent "Host" "a.example";
                           ent "Address" "2.2.2.2"; ent "Address" "3.3.3.3"]);
      ("group", VList [ent "Incident" "i-1"; ent "Adversary" "a-1"]) ] in
  let vd : ThreatConnect.partitions :=
    [ ("indicator",
        [ (VStr "Address", [ent "Address" "1.1.1.1"; ent "Address" "2.2.2.2";
                            ent "Address" "3.3.3.3"]);
          (VStr "Host", [ent "Host" "a.example"]) ]);
      ("group",
        [ (VStr "Incident", [ent "Incident" "i-1"]);
          (VStr "Adversary", [ent "Adversary" "a-1"]) ]) ] in
  ∃ sampled g',
    ThreatConnect.sample_partitions (list nat) Instances.pool_sample vd 100 []
      [5; 1; 2; 7; 3; 8; 4] = Ok (sampled, g')
    ∧ sampled ≡ₚ entities_of data.
Proof.
  intros ent data vd.
  apply (batch_at_100_percent_samples_everything (list nat) Instances.pool_sample
           pool_sample_spec data vd); [|reflexivity].
  apply (bool_decide_unpack _). vm_compute. exact I.
Defined.

(** X15 on the same file at 50 percent, on a platform where only the groups
    validate: the assertion of [batch] fails. *)
Lemma batch_file_passes_iff_samples_validate_witness :
  let ent (t s : string) := VDict [("type", VStr t); ("summary", VStr s)] in
  let data : dict :=
    [ ("indicator", VList [ent "Address" "1.1.1.1"; ent "Host" "a.example";
                           ent "Address" "2.2.2.2"; ent "Address" "3.3.3.3"]);
      ("group", VList [ent "Incident" "i-1"; ent "Adversary" "a-1"]) ] in
  let is_group (e : value) :=
    match e with
    | VDict d => py_eq (default VNone (dict_get "type" d)) (VStr "Incident")
                 || py_eq (default VNone (dict_get "type" d)) (VStr "Adversary")
    | _ => false
    end in
  ThreatConnect.batch_file (fun e _ _ => Ok (is_group e)) (list nat)
    Instances.pool_sample data "TCI" 50 [5; 1; 2; 7; 3]
  = Raise AssertionError.
Proof.
  intros ent data is_group.
  destruct (batch_file_passes_iff_samples_validate (fun e _ _ => Ok (is_group e))
              is_group (list nat) Instances.pool_sample pool_sample_spec data
              _ "TCI" 50 [5; 1; 2; 7; 3]
              ltac:(discriminate) ltac:(discriminate) ltac:(reflexivity) eq_refl)
    as (sampled & g' & Hrun & Hfile).
  vm_compute in Hrun. injection Hrun as <- <-. exact Hfile.
Defined.

(** ** [_convert_to_percent]: the ends of the scale *)

Lemma round_half_even_integer (x : Q) (n : Z) :
  x == inject_Z n → ThreatConnect.round_half_even x = n.
Proof.
  intros Hx. unfold ThreatConnect.round_half_even.
  assert (Hf : Qfloor x = n) by (rewrite (Qfloor_comp _ _ Hx); apply Qfloor_Z).
  rewrite Hf.
  assert (Hlt : (x - inject_Z n ?= 1 # 2)%Q = Lt).
  { apply Qlt_alt. rewrite Hx.
    assert (E : (inject_Z n - inject_Z n == 0)%Q) by ring.
    rewrite E. reflexivity. }
  by rewrite Hlt.
Qed.

Lemma round_half_even_nonneg (x : Q) :
  (0 <= x)%Q → (0 ≤ ThreatConnect.round_half_even x)%Z.
Proof.
  intros Hx. unfold ThreatConnect.round_half_even.
  assert (Hf : (0 ≤ Qfloor x)%Z).
  { change 0%Z with (Qfloor 0). by apply Qfloor_resp_le. }
  destruct (x - inject_Z (Qfloor x) ?= 1 # 2)%Q; [|lia|lia].
  destruct (Z.even (Qfloor x)); lia.
Qed.

(** X16: for a count from 0 to a positive total, [_convert_to_percent]
    returns a percentage from 0 to 100: 0 for a count of 0 and 100 for the
    whole total. *)
Theorem convert_to_percent_scale (validation_count : Z)
    (batch_submit_totals : ThreatConnect.totals) :
  let total := ThreatConnect.sum_counts batch_submit_totals in
  (0 < total)%Z → (0 ≤ validation_count ≤ total)%Z →
  ∃ p, ThreatConnect._convert_to_percent validation_count batch_submit_totals = Ok p
     ∧ (0 <= p)%Q ∧ (p <= 100)%Q
     ∧ (validation_count = 0%Z → p == 0)
     ∧ (validation_count = total → p == 100).
Proof.
  intros total Htotal Hcount. unfold ThreatConnect._convert_to_percent. fold total.
  assert ((validation_count >? total)%Z = false) as ->
    by (rewrite Z.gtb_ltb, Z.ltb_ge; lia).
  assert ((total =? 0)%Z = false) as -> by (apply Z.eqb_neq; lia).
  eexists. split; [reflexivity|].
  set (x := (inject_Z validation_count / inject_Z total * 100)%Q).
  assert (Ht : (0 < inject_Z total)%Q).
  { change 0%Q with (inject_Z 0). by rewrite <- Zlt_Qlt. }
  assert (Hx0 : (0 <= x)%Q).
  { subst x. apply Qmult_le_0_compat; [|discriminate].
    apply Qle_shift_div_l; [done|]. rewrite Qmult_0_l.
    change 0%Q with (inject_Z 0). rewrite <- Zle_Qle. lia. }
  split; [|split; [|split]].
  - unfold ThreatConnect.round2. apply Qle_shift_div_l; [reflexivity|].
    rewrite Qmult_0_l. change 0%Q with (inject_Z 0). rewrite <- Zle_Qle.
    apply round_half_even_nonneg. apply Qmult_le_0_compat; [done | discriminate].
  - apply round2_le_100. subst x. apply ratio_percent_le_100; lia.
  - intros ->. unfold ThreatConnect.round2.
    rewrite (round_half_even_integer (x * 100) 0); [reflexivity|].
    subst x. unfold Qdiv. rewrite Qmult_0_l. reflexivity.
  - intros ->. unfold ThreatConnect.round2.
    rewrite (round_half_even_integer (x * 100) 10000); [reflexivity|].
    subst x. unfold Qdiv. rewrite Qmult_inv_r; [reflexivity|].
    intros H0. rewrite H0 in Ht. discriminate.
Qed.

(** X16 on the totals [{'indicator': {'Address': 3, 'Host': 4}}]. *)
Lemma convert_to_percent_scale_witness :
  let totals := [("indicator", [(VStr "Address", 3%Z); (VStr "Host", 4%Z)])] in
  (∃ p, ThreatConnect._convert_to_percent 7 totals = Ok p ∧ p == 100)
  ∧ (∃ p, ThreatConnect._convert_to_percent 3 totals = Ok p
        ∧ (0 <= p)%Q ∧ (p <= 100)%Q).
Proof.
  intros totals. split.
  - destruct (convert_to_percent_scale 7 totals) as (p & Hp & _ & _ & _ & Hfull);
      [reflexivity | split; discriminate |].
    exists p. split; [exact Hp | by apply Hfull].
  - destruct (convert_to_percent_scale 3 totals) as (p & Hp & H0 & H100 & _);
      [reflexivity | split; discriminate |].
    by exists p.
Defined.

(** ** One object given as [expected] and as [actual] *)

Section SameObject.
Context {K V : Type} `{EqDecision K}.
Variable str_ne : V → V → bool.

Lemma compare_dicts_loop_resized (remaining n0 i : nat)
    (expected actual : ThreatConnect.loc) (h : gmap ThreatConnect.loc (list (K * V)))
    (valid : bool) :
  length (h !!! expected) ≠ n0 →
  ThreatConnect.compare_dicts_loop str_ne remaining n0 i expected actual h valid
  = Raise RuntimeError.
Proof.
  intros Hlen. apply Nat.eqb_neq in Hlen.
  destruct remaining; simpl; by rewrite Hlen.
Qed.

(** X17: [compare_dicts] given one and the same non-empty dict as
    [expected] and as [actual] raises [RuntimeError]: it pops from the dict
    it is iterating over. *)
Theorem compare_dicts_same_object_raises (d : ThreatConnect.loc)
    (h : gmap ThreatConnect.loc (list (K * V))) :
  h !!! d ≠ [] →
  ThreatConnect.compare_dicts str_ne d d h = Raise RuntimeError.
Proof.
  intros Hne. unfold ThreatConnect.compare_dicts.
  destruct (h !!! d) as [|[k v] rest] eqn:Hd; [done|].
  cbn [length ThreatConnect.compare_dicts_loop].
  rewrite Hd, Nat.eqb_refl.
  cbn [negb length lookup list_lookup alist_get].
  assert (ThreatConnect.key_eqb k k = true) as ->
    by (by apply bool_decide_eq_true_2).
  rewrite compare_dicts_loop_resized; [done|].
  rewrite lookup_total_insert_eq. simpl.
  assert (ThreatConnect.key_eqb k k = true) as ->
    by (by apply bool_decide_eq_true_2).
  lia.
Qed.

End SameObject.

(** X17 on a dict with one attribute. *)
Lemma compare_dicts_same_object_raises_witness :
  ThreatConnect.compare_dicts (fun e a : string => negb (String.eqb e a)) 0 0
    ({[ 0 := [("Description", "x")] ]} : gmap ThreatConnect.loc (list (string * string)))
  = Raise RuntimeError.
Proof.
  apply compare_dicts_same_object_raises. by rewrite lookup_total_singleton_eq.
Defined.

(** ** [_get_batch_submit_totals] on one file *)

Section AListMore.
Context {K V : Type} (eqb : K → K → bool).

Lemma alist_get_all_differ (k : K) (d : list (K * V)) :
  Forall (fun kv => eqb k (fst kv) = false) d → alist_get eqb k d = None.
Proof.
  induction 1 as [|[k' v] d Hk _ IH]; [done|]. simpl in *. by rewrite Hk.
Qed.

Lemma alist_get_app_fresh (k : K) (d d' : list (K * V)) :
  Forall (fun kv => eqb k (fst kv) = false) d →
  alist_get eqb k (d ++ d') = alist_get eqb k d'.
Proof.
  induction 1 as [|[k' v] d Hk _ IH]; [done|]. simpl in *. by rewrite Hk.
Qed.

Lemma alist_set_app_fresh (k : K) (v : V) (d d' : list (K * V)) :
  Forall (fun kv => eqb k (fst kv) = false) d →
  alist_set eqb k v (d ++ d') = d ++ alist_set eqb k v d'.
Proof.
  induction 1 as [|[k' v'] d Hk _ IH]; [done|]. simpl in *. by rewrite Hk, IH.
Qed.

End AListMore.

Lemma alist_get_set_string {V : Type} (k s : string) (v : V) (d : list (string * V)) :
  alist_get String.eqb s (alist_set String.eqb k v d)
  = if String.eqb s k then Some v else alist_get String.eqb s d.
Proof.
  induction d as [|[k' v'] d IH]; simpl.
  - done.
  - destruct (String.eqb k k') eqn:E; simpl.
    + apply String.eqb_eq in E as <-. by destruct (String.eqb s k).
    + rewrite IH. destruct (String.eqb s k') eqn:E'; [|done].
      apply String.eqb_eq in E' as ->. by rewrite String.eqb_sym, E.
Qed.

Lemma alist_set_set_string {V : Type} (k : string) (v v' : V) (d : list (string * V)) :
  alist_set String.eqb k v' (alist_set String.eqb k v d) = alist_set String.eqb k v' d.
Proof.
  induction d as [|[k0 v0] d IH]; simpl.
  - by rewrite String.eqb_refl.
  - destruct (String.eqb k k0) eqn:E; simpl; rewrite E; [done|]. by rewrite IH.
Qed.

Lemma alist_set_same_string {V : Type} (k : string) (v : V) (d : list (string * V)) :
  alist_get String.eqb k d = Some v → alist_set String.eqb k v d = d.
Proof.
  induction d as [|[k0 v0] d IH]; simpl; [done|].
  destruct (String.eqb k k0); [by intros [= ->] | by intros ->%IH].
Qed.

(** The types [subs] come after the types counted so far, all distinct, and
    none of them is the name of a top-level key of [counts]. *)
Lemma count_sub_keys_spec (key : string) (subs : list (value * list value))
    (counts : ThreatConnect.totals) (inner : list (value * Z)) :
  alist_get String.eqb key counts = Some inner →
  Forall (fun sub => hashable (fst sub) = true) subs →
  distinct_types (map fst inner ++ map fst subs) →
  Forall (fun sub => ∀ s, fst sub = VStr s → alist_get String.eqb s counts = None) subs →
  ThreatConnect.count_sub_keys key subs counts
  = Ok (alist_set String.eqb key (inner ++ map part_size subs) counts).
Proof.
  revert counts inner.
  induction subs as [|[t part] subs IH]; intros counts inner Hkey Hhash Hdist Hclash.
  - simpl. rewrite app_nil_r. by rewrite alist_set_same_string.
  - apply Forall_cons in Hhash as [Ht Hhash].
    apply Forall_cons in Hclash as [Hct Hclash]. simpl in Ht, Hct.
    assert (Hfresh : Forall (fun kv : value * Z => py_eq t (fst kv) = false) inner).
    { apply Forall_forall. intros [k c] Hin.
      apply list_elem_of_lookup in Hin as [i Hi]. simpl.
      apply (Hdist i (length inner + 0)).
      - apply lookup_lt_Some in Hi. lia.
      - rewrite lookup_app_l by (rewrite length_map; by apply lookup_lt_Some in Hi).
        by rewrite list_lookup_fmap, Hi.
      - rewrite lookup_app_r by (rewrite length_map; lia).
        rewrite length_map. by replace (length inner + 0 - length inner) with 0 by lia. }
    cbn [ThreatConnect.count_sub_keys].
    assert (match t with
            | VStr s => bool_decide (is_Some (alist_get String.eqb s counts))
            | _ => false
            end = false) as ->.
    { destruct t; try done. rewrite (Hct s eq_refl).
      apply bool_decide_eq_false_2. by intros [? ?]. }
    rewrite Hkey. cbn [default from_option id mbind result_bind].
    rewrite (alist_set_fresh py_eq t 0%Z inner)
      by by apply alist_get_all_differ.
    rewrite alist_get_app_fresh by done.
    rewrite alist_set_app_fresh by done.
    cbn [alist_get alist_set]. rewrite py_eq_hashable_refl by done.
    cbn [default from_option id]. rewrite Z.add_0_l.
    rewrite (IH _ (inner ++ [(t, Z.of_nat (length part))])).
    + rewrite alist_set_set_string. by rewrite <- app_assoc.
    + by rewrite alist_get_set_string, String.eqb_refl.
    + done.
    + rewrite map_app. simpl. by rewrite <- app_assoc.
    + eapply Forall_impl; [exact Hclash|]. intros sub Hsub s Hs. simpl in Hsub.
      rewrite alist_get_set_string. destruct (String.eqb s key) eqn:E; [|by apply Hsub].
      apply String.eqb_eq in E as ->. rewrite (Hsub _ Hs) in Hkey. done.
Qed.

Lemma count_keys_spec (vd done_ : ThreatConnect.partitions) :
  NoDup (map fst (done_ ++ vd)) →
  Forall (fun ks => Forall (fun sub => hashable (fst sub) = true) (snd ks)
                    ∧ distinct_types (map fst (snd ks))
                    ∧ Forall (fun sub => ∀ s, fst sub = VStr s →
                                s ∉ map fst (done_ ++ vd)) (snd ks)) vd →
  ThreatConnect.count_keys vd (part_sizes done_) = Ok (part_sizes (done_ ++ vd)).
Proof.
  revert done_. induction vd as [|[key subs] vd IH]; intros done_ Hnd Hall.
  - simpl. by rewrite app_nil_r.
  - apply Forall_cons in Hall as [(Hhash & Hdist & Hclash) Hall]. simpl in *.
    assert (Hfresh : key ∉ map fst (part_sizes done_)).
    { unfold part_sizes. rewrite map_map. simpl.
      rewrite map_app in Hnd. simpl in Hnd.
      apply NoDup_app in Hnd as (_ & Hdisj & _). intros Hin.
      apply (Hdisj key Hin). apply list_elem_of_here. }
    rewrite (alist_get_fresh_key key _ Hfresh).
    rewrite (alist_set_fresh String.eqb key [] _ (alist_get_fresh_key key _ Hfresh)).
    rewrite (count_sub_keys_spec key subs _ []).
    + simpl.
      rewrite alist_set_app_fresh.
      2:{ apply Forall_forall. intros [k v] Hin. simpl.
          apply String.eqb_neq. intros <-. apply Hfresh.
          apply list_elem_of_fmap. by exists (key, v). }
      simpl. rewrite String.eqb_refl.
      replace (part_sizes done_ ++ [(key, map part_size subs)])
        with (part_sizes (done_ ++ [(key, subs)]))
        by (unfold part_sizes; by rewrite map_app).
      rewrite IH.
      * by rewrite <- app_assoc.
      * by rewrite <- app_assoc.
      * eapply Forall_impl; [exact Hall|]. intros ks (H1 & H2 & H3).
        split; [done|]. split; [done|]. by rewrite <- app_assoc.
    + rewrite alist_get_app_fresh.
      * simpl. by rewrite String.eqb_refl.
      * apply Forall_forall. intros [k v] Hin. simpl.
        apply String.eqb_neq. intros <-. apply Hfresh.
        apply list_elem_of_fmap. by exists (key, v).
    + done.
    + done.
    + eapply Forall_impl; [exact Hclash|]. intros sub Hsub s Hs.
      apply alist_get_fresh_key. intros Hin. apply (Hsub s Hs).
      rewrite map_app in Hin |- *. simpl in Hin |- *.
      apply elem_of_app in Hin as [Hin | Hin].
      * apply elem_of_app. left. unfold part_sizes in Hin.
        by rewrite map_map in Hin.
      * apply elem_of_app. right. apply list_elem_of_singleton in Hin as ->.
        apply list_elem_of_here.
Qed.

Lemma partition_keys_names (keys : list string) (data : dict)
    (pd pd' : ThreatConnect.partitions) :
  NoDup keys → (∀ k, k ∈ keys → k ∉ map fst pd) →
  ThreatConnect.partition_keys keys data pd = Ok pd' →
  map fst pd' = map fst pd ++ keys.
Proof.
  revert pd. induction keys as [|key keys IH]; intros pd Hnd Hfresh Hrun; simpl in Hrun.
  - inversion Hrun; subst. by rewrite app_nil_r.
  - apply NoDup_cons in Hnd as [Hkey Hnd].
    destruct (py_iter (default VNone (dict_get key data))) as [items|];
      simpl in Hrun; [|done].
    destruct (ThreatConnect.partition_sub_data items []) as [psd|];
      simpl in Hrun; [|done].
    rewrite alist_set_fresh in Hrun
      by (apply alist_get_fresh_key, Hfresh, list_elem_of_here).
    rewrite (IH (pd ++ [(key, psd)]) Hnd); [|..|exact Hrun].
    + rewrite map_app. simpl. by rewrite <- app_assoc.
    + intros k Hk. rewrite map_app. simpl. intros [Hin | Hin]%elem_of_app.
      * by apply (Hfresh k); [apply list_elem_of_further|].
      * apply list_elem_of_singleton in Hin as ->. done.
Qed.

Lemma sum_part_sizes (subs : list (value * list value)) (acc : Z) :
  fold_left (fun total (sc : value * Z) => (total + snd sc)%Z) (map part_size subs) acc
  = (acc + Z.of_nat (length (concat (map snd subs))))%Z.
Proof.
  revert acc. induction subs as [|[t part] subs IH]; intros acc; simpl; [lia|].
  rewrite IH, length_app. lia.
Qed.

Lemma sum_counts_part_sizes (vd : ThreatConnect.partitions) :
  ThreatConnect.sum_counts (part_sizes vd)
  = Z.of_nat (length (concat (map (fun ks => concat (map snd (snd ks))) vd))).
Proof.
  unfold ThreatConnect.sum_counts.
  assert (Hacc : ∀ acc,
    fold_left (fun total (kv : string * list (value * Z)) =>
                 fold_left (fun total sc => (total + snd sc)%Z) (snd kv) total)
      (part_sizes vd) acc
    = (acc + Z.of_nat (length (concat (map (fun ks => concat (map snd (snd ks))) vd))))%Z).
  { induction vd as [|[key subs] vd IH]; intros acc; simpl; [lia|].
    rewrite sum_part_sizes, IH, length_app. lia. }
  by rewrite Hacc.
Qed.

(** X18: for one batch file with distinct top-level keys, none of which is
    the type of an entity, [_get_batch_submit_totals] returns the size of
    every part of the file, and the total that [_convert_to_percent] draws
    from them is the number of entities of the file. *)
Theorem batch_submit_totals_of_one_file (data : dict) (vd : ThreatConnect.partitions) :
  NoDup (dict_keys data) →
  ThreatConnect._partition_batch_data data = Ok vd →
  (∀ ks sub s, ks ∈ vd → sub ∈ snd ks → fst sub = VStr s → s ∉ dict_keys data) →
  ThreatConnect._get_batch_submit_totals [data] [] = Ok (part_sizes vd)
  ∧ ThreatConnect.sum_counts (part_sizes vd) = Z.of_nat (length (entities_of data)).
Proof.
  intros Hnd Hpart Hclash. split.
  - simpl. rewrite Hpart. simpl.
    unfold ThreatConnect._partition_batch_data in Hpart.
    assert (Hnames : map fst vd = dict_keys data).
    { apply (partition_keys_names (dict_keys data) data [] vd Hnd); [|done].
      by intros k _ ?%elem_of_nil. }
    destruct (partition_keys_spec (dict_keys data) data [] vd) as [HP _];
      [by apply Forall_nil | done |].
    change (@nil (string * list (value * Z))) with (part_sizes []).
    rewrite (count_keys_spec vd []); [done | simpl; by rewrite Hnames |].
    apply Forall_forall. intros ks Hks.
    rewrite Forall_forall in HP. destruct (HP ks Hks) as (items & _ & _ & Hall & Hdist).
    split; [|split; [done|]].
    + eapply Forall_impl; [exact Hall|]. by intros sub [? _].
    + apply Forall_forall. intros sub Hsub s Hs. simpl. rewrite Hnames.
      by apply (Hclash ks sub s).
  - rewrite sum_counts_part_sizes. f_equal. apply Permutation_length.
    by apply partitions_hold_the_entities.
Qed.

(** X18 on a file with four indicators and two groups. *)
Lemma batch_submit_totals_of_one_file_witness :
  let ent (t s : string) := VDict [("type", VStr t); ("summary", VStr s)] in
  let data : dict :=
    [ ("indicator", VList [ent "Address" "1.1.1.1"; ent "Host" "a.example";
                           ent "Address" "2.2.2.2"; ent "Address" "3.3.3.3"]);
      ("group", VList [ent "Incident" "i-1"; ent "Adversary" "a-1"]) ] in
  ThreatConnect._get_batch_submit_totals [data] []
  = Ok [ ("indicator", [(VStr "Address", 3%Z); (VStr "Host", 1%Z)]);
         ("group", [(VStr "Incident", 1%Z); (VStr "Adversary", 1%Z)]) ]
  ∧ ThreatConnect.sum_counts
      [ ("indicator", [(VStr "Address", 3%Z); (VStr "Host", 1%Z)]);
        ("group", [(VStr "Incident", 1%Z); (VStr "Adversary", 1%Z)]) ] = 6%Z.
Proof.
  intros ent data.
  apply (batch_submit_totals_of_one_file data
           [ ("indicator",
               [ (VStr "Address", [ent "Address" "1.1.1.1"; ent "Address" "2.2.2.2";
                                   ent "Address" "3.3.3.3"]);
                 (VStr "Host", [ent "Host" "a.example"]) ]);
             ("group",
               [ (VStr "Incident", [ent "Incident" "i-1"]);
                 (VStr "Adversary", [ent "Adversary" "a-1"]) ]) ]).
  - apply (bool_decide_unpack _). vm_compute. exact I.
  - reflexivity.
  - intros ks sub s Hks Hsub Hs Hin.
    repeat (apply elem_of_cons in Hks as [-> | Hks]); [| |by apply elem_of_nil in Hks];
      simpl in Hsub;
      repeat (apply elem_of_cons in Hsub as [-> | Hsub]);
      try (by apply elem_of_nil in Hsub);
      simpl in Hs; inversion Hs; subst s;
      repeat (apply elem_of_cons in Hin as [Hin | Hin]; [discriminate|]);
      by apply elem_of_nil in Hin.
Defined.
